(** * tldr-bot: the time-range parser, the text chunker and the [/tldr] handler

    A shallow embedding of [src/bot.py] (with the constants of
    [src/config.py]) and the proofs of its specification.

    Conventions of the embedding.
    - A Python [str] is a sequence of Unicode code points: [list N].
      [len], slicing, [rfind], [strip], [lower] and [int] follow CPython
      (3.11, Unicode 14.0.0).
    - Python integers are [Z]; [//] is [Z.div] (floor division).
    - A call that may raise returns a [result]; the exceptions the handler
      tells apart are the constructors of [exn].
    - The [while] loop of [split_text_into_chunks] takes fuel, one unit per
      execution of its body; [None] is a run that did not finish within it. *)

From Stdlib Require Import String Ascii ZArith NArith Bool Lia List.
From Stdlib Require Import DecimalString Sorted.
Import ListNotations.

#[local] Open Scope Z_scope.

(** ** Python strings *)

Module Py.

Definition str : Type := list N.

(** An ASCII literal as a [str]. *)
Definition lit (s : string) : str := map N_of_ascii (list_ascii_of_string s).

Definition len (s : str) : Z := Z.of_nat (length s).

Definition NEWLINE : N := 10%N.

(** The code points [str.strip] removes ([str.isspace]). *)
Definition whitespace : list N :=
  [9; 10; 11; 12; 13; 28; 29; 30; 31; 32; 133; 160; 5760;
   8192; 8193; 8194; 8195; 8196; 8197; 8198; 8199; 8200; 8201; 8202;
   8232; 8233; 8239; 8287; 12288]%N.

Definition is_space (c : N) : bool := existsb (N.eqb c) whitespace.

Fixpoint lstrip (s : str) : str :=
  match s with
  | [] => []
  | c :: t => if is_space c then lstrip t else s
  end.

Definition rstrip (s : str) : str := rev (lstrip (rev s)).

Definition strip (s : str) : str := rstrip (lstrip s).

(** A slice bound [i] on a sequence of length [n]: negative bounds count
    from the end, and every bound is clamped to [0 .. n]. *)
Definition norm_index (n i : Z) : Z :=
  if i <? 0 then Z.max 0 (i + n) else Z.min i n.

(** [s[:k]] and [s[k:]]. *)
Definition slice_to (s : str) (k : Z) : str :=
  firstn (Z.to_nat (norm_index (len s) k)) s.

Definition slice_from (s : str) (k : Z) : str :=
  skipn (Z.to_nat (norm_index (len s) k)) s.

(** The greatest index of [c] in [s], counting the head as index [i];
    [-1] when [c] does not occur. *)
Fixpoint last_index (c : N) (s : str) (i : Z) : Z :=
  match s with
  | [] => -1
  | x :: t =>
      let r := last_index c t (i + 1) in
      if 0 <=? r then r else if N.eqb x c then i else -1
  end.

(** [s.rfind(c, 0, stop)] for a one-character [c]. *)
Definition rfind (s : str) (c : N) (stop : Z) : Z :=
  last_index c (slice_to s stop) 0.

(** [str(n)] for an integer, as an f-string renders it. *)
Definition str_of_int (n : Z) : str := lit (NilZero.string_of_int (Z.to_int n)).

(** First code points of the blocks [0..9] of the Unicode decimal digits
    (category Nd, Unicode 14.0.0): what [\d] matches and [int] converts. *)
Definition decimal_blocks : list N :=
  [48; 1632; 1776; 1984; 2406; 2534; 2662; 2790; 2918; 3046; 3174; 3302;
   3430; 3558; 3664; 3792; 3872; 4160; 4240; 6112; 6160; 6470; 6608; 6784;
   6800; 6992; 7088; 7232; 7248; 42528; 43216; 43264; 43472; 43504; 43600;
   44016; 65296; 66720; 68912; 69734; 69872; 69942; 70096; 70384; 70736;
   70864; 71248; 71360; 71472; 71904; 72016; 72784; 73040; 73120; 92768;
   92864; 93008; 120782; 120792; 120802; 120812; 120822; 123200; 123632;
   125264; 130032]%N.

Definition in_block (c b : N) : bool := ((b <=? c) && (c <? b + 10))%N.

(** The decimal value of a code point, when it is a decimal digit. *)
Definition decimal_value (c : N) : option Z :=
  match find (in_block c) decimal_blocks with
  | Some b => Some (Z.of_N (c - b))
  | None => None
  end.

Definition is_decimal (c : N) : bool :=
  match decimal_value c with Some _ => true | None => false end.

(** Exceptions and results.  [BaseExceptionOnly] stands for what a call may
    raise that is a [BaseException] and no [Exception]
    ([asyncio.CancelledError], [KeyboardInterrupt], [SystemExit]): an
    [except Exception] clause lets it through.  Every other constructor is a
    subclass of [Exception]. *)
Inductive exn : Type :=
| TimeParseError (msg : str)
| ValueError
| OverflowError
| Forbidden
| OtherException (description : str)
| BaseExceptionOnly (description : str).

Inductive result (A : Type) : Type :=
| Return (a : A)
| Raise (e : exn).

Arguments Return {A} a.
Arguments Raise {A} e.

(** The value of a sequence of decimal digits, most significant first. *)
Fixpoint digits_value (acc : Z) (s : str) : Z :=
  match s with
  | [] => acc
  | c :: t =>
      match decimal_value c with
      | Some d => digits_value (10 * acc + d) t
      | None => acc
      end
  end.

(** [sys.int_info.default_max_str_digits]. *)
Definition MAX_STR_DIGITS : Z := 4300.

(** [int(s)] on a non-empty sequence of decimal digits (the only strings
    the parser converts): the conversion refuses more than
    [MAX_STR_DIGITS] digits. *)
Definition int (s : str) : result Z :=
  if MAX_STR_DIGITS <? len s then Raise ValueError
  else Return (digits_value 0 s).

(** [sep.join(lines)]. *)
Fixpoint join (sep : str) (lines : list str) : str :=
  match lines with
  | [] => []
  | [l] => l
  | l :: rest => l ++ sep ++ join sep rest
  end.

(** [s[i]] when [0 <= i < len(s)]. *)
Definition char_at (s : str) (i : Z) : option N :=
  if i <? 0 then None else nth_error s (Z.to_nat i).

(** [c.lower()] on the letters the time pattern lets through. *)
Definition lower (c : N) : N :=
  if ((65 <=? c) && (c <=? 90))%N then (c + 32)%N else c.

End Py.

Import Py.

(** ** [split_text_into_chunks] *)

Definition EMBED_DESC_LIMIT : Z := 4096.
Definition MAX_EMBEDS_PER_MESSAGE : Z := 10.

(** Lines 90-95: the split point of one pass of the loop. *)
Definition split_point (remaining : str) (max_length : Z) : Z :=
  let last_newline := rfind remaining NEWLINE max_length in
  if max_length / 2 <? last_newline then last_newline + 1 else max_length.

(** Lines 84-98: the [while remaining:] loop. *)
Fixpoint split_loop (fuel : nat) (max_length : Z) (remaining : str)
  (chunks : list str) : option (list str) :=
  match remaining with
  | [] => Some chunks
  | _ :: _ =>
      match fuel with
      | O => None
      | S fuel' =>
          if len remaining <=? max_length then Some (chunks ++ [remaining])
          else
            let sp := split_point remaining max_length in
            split_loop fuel' max_length
              (lstrip (slice_from remaining sp))
              (chunks ++ [rstrip (slice_to remaining sp)])
      end
  end.

(** Lines 73-100, with the fuel of the loop explicit. *)
Definition split_text_into_chunks_fuel (fuel : nat) (text : str)
  (max_length : Z) : option (list str) :=
  if len text <=? max_length then Some [text]
  else split_loop fuel max_length text [].

(** A pass that does not shorten [remaining] repeats for ever, so the loop
    either ends within [length text] passes or never does
    ([split_text_into_chunks_diverges]). *)
Definition split_text_into_chunks (text : str) (max_length : Z)
  : option (list str) :=
  split_text_into_chunks_fuel (length text) text max_length.

(** ** [datetime.timedelta] *)

Module Timedelta.

(** A normalised duration: [0 <= seconds < 86400], [0 <= microseconds < 10^6]. *)
Record timedelta : Type := mk_timedelta
  { days : Z; seconds : Z; microseconds : Z }.

(** [timedelta.max.days]: the constructor raises [OverflowError] beyond it. *)
Definition MAX_DELTA_DAYS : Z := 999999999.

(** [timedelta(days=d, hours=h, minutes=m)]. *)
Definition timedelta_new (d h m : Z) : result timedelta :=
  let total_seconds := d * 86400 + h * 3600 + m * 60 in
  let nd := total_seconds / 86400 in
  if (nd <? - MAX_DELTA_DAYS) || (MAX_DELTA_DAYS <? nd) then Raise OverflowError
  else Return (mk_timedelta nd (total_seconds mod 86400) 0).

(** The comparison of two durations: field by field, days first. *)
Definition compare (a b : timedelta) : comparison :=
  match days a ?= days b with
  | Eq => match seconds a ?= seconds b with
          | Eq => microseconds a ?= microseconds b
          | c => c
          end
  | c => c
  end.

(** [a > b] and [a >= b]. *)
Definition gtb (a b : timedelta) : bool :=
  match compare a b with Gt => true | _ => false end.

Definition geb (a b : timedelta) : bool :=
  match compare a b with Lt => false | _ => true end.

Definition total_seconds (a : timedelta) : Z := days a * 86400 + seconds a.

Definition total_microseconds (a : timedelta) : Z :=
  total_seconds a * 1000000 + microseconds a.

Definition normalized (a : timedelta) : Prop :=
  0 <= seconds a < 86400 /\ 0 <= microseconds a < 1000000.

End Timedelta.

Import Timedelta.

(** ** [parse_time_ago] *)

Fixpoint str_eqb (a b : str) : bool :=
  match a, b with
  | [], [] => true
  | x :: a', y :: b' => N.eqb x y && str_eqb a' b'
  | _, _ => false
  end.

Fixpoint take_while (p : N -> bool) (s : str) : str :=
  match s with
  | [] => []
  | c :: t => if p c then c :: take_while p t else []
  end.

Fixpoint drop_while (p : N -> bool) (s : str) : str :=
  match s with
  | [] => []
  | c :: t => if p c then drop_while p t else s
  end.

(** The code points [[mhd]] matches under [re.IGNORECASE]: m h d M H D. *)
Definition unit_letters : list N := [109; 104; 100; 77; 72; 68]%N.

Definition is_unit_letter (c : N) : bool := existsb (N.eqb c) unit_letters.

(** [TIME_PATTERN.match(s)]: groups 1 and 2 of [^(\d+)([mhd])$].  [\d+]
    takes the longest run of decimal digits (no unit letter is a digit, so
    giving one back never helps); [$] matches at the end of the string and
    also just before a final newline. *)
Definition TIME_PATTERN_match (s : str) : option (str * str) :=
  match take_while is_decimal s, drop_while is_decimal s with
  | (_ :: _) as digits, [u] =>
      if is_unit_letter u then Some (digits, [u]) else None
  | (_ :: _) as digits, [u; nl] =>
      if is_unit_letter u && N.eqb nl NEWLINE then Some (digits, [u]) else None
  | _, _ => None
  end.

Definition invalid_format_message (time_str : str) : str :=
  lit "Invalid time format: `" ++ time_str
  ++ lit "`. Use format like `30m`, `1h`, or `2d`.".

Definition negative_value_message : str :=
  lit "Time value must be greater than 0.".

Definition unknown_unit_message (unit : str) : str :=
  lit "Unknown time unit: " ++ unit.

(** Lines 38-70. *)
Definition parse_time_ago (time_str : str) : result timedelta :=
  match TIME_PATTERN_match (strip time_str) with
  | None => Raise (TimeParseError (invalid_format_message time_str))
  | Some (group1, group2) =>
      match int group1 with
      | Raise e => Raise e
      | Return value =>
          let unit := map lower group2 in
          if value <? 0 then Raise (TimeParseError negative_value_message)
          else if str_eqb unit (lit "m") then timedelta_new 0 0 value
          else if str_eqb unit (lit "h") then timedelta_new 0 value 0
          else if str_eqb unit (lit "d") then timedelta_new value 0 0
          else Raise (TimeParseError (unknown_unit_message unit))
      end
  end.

(** The time format in the words of the specification, [^\d+[mMhHdD]$]:
    one decimal digit or more (the numeric prefix), then one unit letter,
    and nothing else. *)
Definition numeric_prefix (s : str) : str := removelast s.

Definition unit_of (s : str) : N := last s 0%N.

Definition spec_time_format (s : str) : bool :=
  match numeric_prefix s with
  | [] => false
  | _ :: _ => forallb is_decimal (numeric_prefix s) && is_unit_letter (unit_of s)
  end.

(** The seconds in one unit, by its letter in either case. *)
Definition unit_seconds (u : N) : Z :=
  if (N.eqb u 109 || N.eqb u 77)%N then 60
  else if (N.eqb u 104 || N.eqb u 72)%N then 3600
  else 86400.

(** The duration of [total] seconds, [total] not negative, where
    [timedelta] can hold it. *)
Definition duration_of_seconds (total : Z) : result timedelta :=
  if MAX_DELTA_DAYS <? total / 86400 then Raise OverflowError
  else Return (mk_timedelta (total / 86400) (total mod 86400) 0).

(** ** [config.py] *)

Module config.

Definition MAX_MESSAGES : Z := 10000.
Definition MAX_TIME_RANGE_DAYS : Z := 3.

Definition DEFAULT_FOCUS : str :=
  join [NEWLINE]
    [ [];
      lit "Analyze the following Discord messages and provide a clear, concise summary in bullet points.";
      lit "Focus on:";
      lit "- Key topics discussed";
      lit "- Important decisions or conclusions";
      lit "- Notable questions asked";
      lit "- Any action items mentioned";
      [];
      lit "Format your response as bullet points. Be concise but capture the essential information.";
      lit "If the conversation is very short or trivial, still provide a brief summary." ].

Definition QUOTE : N := 34%N.

(** [SUMMARY_PROMPT.format(focus=..., messages=...)]: the template has the
    two fields [{focus}] and [{messages}] and no other brace. *)
Definition SUMMARY_PROMPT_format (focus messages : str) : str :=
  lit "You are a helpful assistant that summarizes Discord chat conversations."
  ++ [NEWLINE] ++ focus ++ [NEWLINE]
  ++ lit "Messages are formatted as " ++ [QUOTE]
  ++ lit "Username: Message content" ++ [QUOTE]
  ++ lit " and are in chronological order (oldest first)."
  ++ [NEWLINE; NEWLINE] ++ lit "---" ++ [NEWLINE] ++ lit "MESSAGES:" ++ [NEWLINE]
  ++ messages ++ [NEWLINE] ++ lit "---" ++ [NEWLINE; NEWLINE]
  ++ lit "Provide your bullet-point summary:".

End config.

(** ** The [/tldr] command *)

(** What the handler reads of a [discord.Message]. *)
Record Message : Type := mk_Message
  { author_display_name : str;
    author_bot : bool;
    content : str;
    created_at : Z }.

(** What the handler sets on a [discord.Embed] (the colour is always blue). *)
Record Embed : Type := mk_Embed
  { description : str;
    title : option str;
    footer : option str }.

(** The calls the handler makes on its collaborators, in order. *)
Inductive event : Type :=
| Defer
| FetchHistory (limit after before : Z)
| Generate (prompt : str)
| SendContent (text : str)
| SendEmbeds (embeds : list Embed)
| LogInfo (text : str)
| LogException (text : str)
| Diverge.

(** The collaborators of one invocation.  Instants are microseconds since
    the epoch.  [history] is what iterating [interaction.channel.history]
    yields or raises, [generate] what [generate_content_async(prompt)] and
    reading [response.text] yield or raise, [channel_name] what reading
    [interaction.channel.name] yields or raises.  [defer], [followup.send]
    and the logger are taken to complete normally. *)
Record World : Type := mk_World
  { now : Z;
    history : Z -> Z -> Z -> result (list Message);
    generate : str -> result str;
    channel_name : result str;
    user_str : str;
    in_guild : bool;
    repr : str -> str;
    exn_str : exn -> str }.

(** The handler's effects: the calls made so far and how the code ended. *)
Definition IO (A : Type) : Type := (list event * result A)%type.

Definition ret {A : Type} (a : A) : IO A := ([], Return a).

Definition bind {A B : Type} (m : IO A) (k : A -> IO B) : IO B :=
  match m with
  | (t, Return a) => let (t', r) := k a in (t ++ t', r)
  | (t, Raise e) => (t, Raise e)
  end.

Definition emit (ev : event) : IO unit := ([ev], Return tt).

Definition lift {A : Type} (r : result A) : IO A := ([], r).

(** [try: body except ...: handler]; [handler e = None] when no clause
    catches [e]. *)
Definition try_except {A : Type} (body : IO A) (handler : exn -> option (IO A))
  : IO A :=
  match body with
  | (t, Raise e) =>
      match handler e with
      | Some h => let (t', r) := h in (t ++ t', r)
      | None => (t, Raise e)
      end
  | (t, Return a) => (t, Return a)
  end.

Declare Scope io_scope.
Delimit Scope io_scope with io.
Notation "x <- m ;; k" := (bind m (fun x => k))
  (at level 61, m at next level, right associativity) : io_scope.
Notation "m ;; k" := (bind m (fun _ => k))
  (at level 61, right associativity) : io_scope.

Definition CROSS_MARK : N := 10060%N.
Definition BULLET : N := 8226%N.
Definition ARROW : N := 8594%N.
Definition CLIPBOARD : N := 128203%N.

Definition TITLE : str := [CLIPBOARD] ++ lit " TL;DR Summary".

Definition range_too_wide_message : str :=
  [CROSS_MARK] ++ lit " Start time cannot be more than "
  ++ str_of_int config.MAX_TIME_RANGE_DAYS ++ lit " days ago.".

Definition inverted_range_message : str :=
  [CROSS_MARK] ++ lit " End time must be more recent than start time. "
  ++ lit "For example: `start:1h end:5m` (1 hour ago to 5 minutes ago)".

Definition no_messages_message : str :=
  [CROSS_MARK] ++ lit " No messages found to summarize. "
  ++ lit "Make sure there are recent messages from users (not bots) in this channel.".

Definition empty_summary_message : str :=
  [CROSS_MARK] ++ lit " Failed to generate summary. The AI returned an empty response. "
  ++ lit "Please try again.".

Definition forbidden_dm_message : str :=
  [CROSS_MARK] ++ lit " I don't have permission to read messages here."
  ++ [NEWLINE; NEWLINE]
  ++ lit "**For DMs/Group DMs:** Make sure you've authorized the bot with "
  ++ lit "the `dm_channels.messages.read` scope. You may need to re-authorize the bot.".

Definition forbidden_guild_message : str :=
  [CROSS_MARK] ++ lit " I don't have permission to read messages in this channel."
  ++ [NEWLINE] ++ lit "Make sure I have the **Read Message History** permission.".

Definition unexpected_message (description : str) : str :=
  [CROSS_MARK] ++ lit " An error occurred while generating the summary: "
  ++ description.

(** Line 200: the messages kept. *)
Definition qualifies (m : Message) : bool :=
  negb (author_bot m) &&
  match strip (content m) with [] => false | _ :: _ => true end.

(** Line 211: [messages.sort(key=lambda m: m.created_at)], a stable sort:
    each message, taken from the last to the first, goes before the messages
    already placed that are not older, so equal keys keep their order. *)
Fixpoint insert_by_created_at (m : Message) (sorted : list Message) : list Message :=
  match sorted with
  | [] => [m]
  | x :: rest =>
      if created_at m <=? created_at x then m :: sorted
      else x :: insert_by_created_at m rest
  end.

Definition sort_by_created_at (messages : list Message) : list Message :=
  fold_right insert_by_created_at [] messages.

(** Lines 245-247. *)
Definition footer_text (n_messages : Z) (start end_ : str) (focus : option str) : str :=
  lit "Summarized " ++ str_of_int n_messages ++ lit " messages "
  ++ [BULLET] ++ lit " " ++ start ++ lit " " ++ [ARROW] ++ lit " " ++ end_
  ++ match focus with
     | Some ((_ :: _) as f) =>
         lit " " ++ [BULLET] ++ lit " Focus: " ++ slice_to f 50
         ++ (if 50 <? len f then lit "..." else [])
     | _ => []
     end.

(** Lines 254-265: the loop over [enumerate(chunks[:MAX_EMBEDS_PER_MESSAGE])],
    from index [i]; [n_chunks] is [len(chunks)]. *)
Fixpoint embeds_from (i n_chunks : Z) (footer_text : str) (shown : list str)
  : list Embed :=
  match shown with
  | [] => []
  | chunk :: rest =>
      mk_Embed chunk
        (if i =? 0 then Some TITLE else None)
        (if (i =? n_chunks - 1) || (i =? MAX_EMBEDS_PER_MESSAGE - 1)
         then Some footer_text else None)
      :: embeds_from (i + 1) n_chunks footer_text rest
  end.

Definition make_embeds (chunks : list str) (footer_text : str) : list Embed :=
  embeds_from 0 (Z.of_nat (length chunks)) footer_text
    (firstn (Z.to_nat MAX_EMBEDS_PER_MESSAGE) chunks).

Section Handler.

Variable w : World.

#[local] Open Scope io_scope.

Definition format_message (m : Message) : str :=
  repr w (author_display_name m) ++ lit ": " ++ repr w (content m).

(** Lines 244-273: from the summary to the reply. *)
Definition send_summary (messages : list Message) (summary start end_ : str)
  (focus : option str) : IO unit :=
  let footer := footer_text (Z.of_nat (length messages)) start end_ focus in
  match split_text_into_chunks summary EMBED_DESC_LIMIT with
  | None => emit Diverge
  | Some chunks =>
      let embeds := make_embeds chunks footer in
      emit (SendEmbeds embeds) ;;
      name <- lift (channel_name w) ;;
      emit (LogInfo (lit "Summary sent successfully for #" ++ name ++ lit " ("
                     ++ str_of_int (Z.of_nat (length embeds)) ++ lit " embed(s))"))
  end.

(** Lines 234-273: the reply to the text the model returned. *)
Definition deliver (messages : list Message) (text start end_ : str)
  (focus : option str) : IO unit :=
  match text with
  | [] => emit (SendContent empty_summary_message)
  | _ :: _ => send_summary messages text start end_ focus
  end.

(** Lines 187-273: the handler once the range is accepted. *)
Definition summarize (start_delta end_delta : timedelta) (start end_ : str)
  (focus : option str) : IO unit :=
  let start_time := now w - total_microseconds start_delta in
  let end_time := now w - total_microseconds end_delta in
  emit (FetchHistory config.MAX_MESSAGES start_time end_time) ;;
  fetched <- lift (history w config.MAX_MESSAGES start_time end_time) ;;
  match filter qualifies fetched with
  | [] => emit (SendContent no_messages_message)
  | (_ :: _) as kept =>
      let messages := sort_by_created_at kept in
      let formatted_messages := join [NEWLINE] (map format_message messages) in
      let focus_text :=
        match focus with
        | Some ((_ :: _) as f) => f
        | _ => config.DEFAULT_FOCUS
        end in
      let prompt := config.SUMMARY_PROMPT_format focus_text formatted_messages in
      name <- lift (channel_name w) ;;
      emit (LogInfo (lit "Generating summary for "
                     ++ str_of_int (Z.of_nat (length messages))
                     ++ lit " messages in #" ++ name
                     ++ lit " (requested by " ++ user_str w ++ lit ")")) ;;
      emit (Generate prompt) ;;
      text <- lift (generate w prompt) ;;
      deliver messages text start end_ focus
  end.

(** Lines 165-170: the inner [try], [None] after a reported parse error. *)
Definition parse_range (start end_ : str) : IO (option (timedelta * timedelta)) :=
  try_except
    (start_delta <- lift (parse_time_ago start) ;;
     end_delta <- lift (parse_time_ago end_) ;;
     ret (Some (start_delta, end_delta)))
    (fun e =>
       match e with
       | TimeParseError msg =>
           Some (emit (SendContent ([CROSS_MARK] ++ lit " " ++ msg)) ;; ret None)
       | _ => None
       end).

(** Lines 275-292: the clauses of the outer [try]: [except discord.Forbidden],
    then [except Exception], which does not catch a [BaseExceptionOnly]. *)
Definition on_exception (e : exn) : option (IO unit) :=
  match e with
  | Forbidden =>
      Some (emit (SendContent (if in_guild w then forbidden_guild_message
                               else forbidden_dm_message)))
  | BaseExceptionOnly _ => None
  | _ =>
      Some (emit (LogException (lit "Error generating summary: " ++ exn_str w e)) ;;
            emit (SendContent (unexpected_message (exn_str w e))))
  end.

(** Lines 145-292. *)
Definition tldr_command (start end_ : str) (focus : option str) : IO unit :=
  emit Defer ;;
  try_except
    (parsed <- parse_range start end_ ;;
     match parsed with
     | None => ret tt
     | Some (start_delta, end_delta) =>
         max_delta <- lift (timedelta_new config.MAX_TIME_RANGE_DAYS 0 0) ;;
         if gtb start_delta max_delta then
           emit (SendContent range_too_wide_message)
         else if geb end_delta start_delta then
           emit (SendContent inverted_range_message)
         else summarize start_delta end_delta start end_ focus
     end)
    on_exception.

End Handler.

(** The gateway fetches of a run. *)
Definition is_fetch (ev : event) : bool :=
  match ev with FetchHistory _ _ _ => true | _ => false end.

Definition fetches (run : IO unit) : list event := filter is_fetch (fst run).

(** A run to test the handler on: three messages of users and one of a
    bot in the channel, and a model that answers with two bullet points. *)
Definition example_history : list Message :=
  [ mk_Message (lit "bob") false (lit "shall we ship on friday?") 2000;
    mk_Message (lit "ann") false (lit "the build is red") 1000;
    mk_Message (lit "ci-bot") true (lit "build #12 failed") 1500;
    mk_Message (lit "ann") false (lit "fixed, green again") 3000 ].

Definition example_world : World :=
  mk_World 7200000000
    (fun _ _ _ => Return example_history)
    (fun _ => Return (lit "- build fixed" ++ [NEWLINE] ++ lit "- ship on friday"))
    (Return (lit "general"))
    (lit "ann")
    true
    (fun s => [39%N] ++ s ++ [39%N])
    (fun _ => lit "error").

(** The text of the chunking scenario: every 80th character a newline, and
    no other whitespace; [i] is the index of the head. *)
Fixpoint newline_every_80_from (i : Z) (text : str) : bool :=
  match text with
  | [] => true
  | c :: t =>
      (if (i + 1) mod 80 =? 0 then N.eqb c NEWLINE else negb (is_space c))
      && newline_every_80_from (i + 1) t
  end.

Definition newline_every_80 (text : str) : bool := newline_every_80_from 0 text.

Definition scenario_text : str :=
  concat (repeat (repeat 97%N 79 ++ [NEWLINE]) 112) ++ repeat 97%N 40.

(** ** The claims that fail, in the words of the specification *)

(** C3 as the specification words it: a string in the format parses to the
    duration of its numeric prefix in its unit. *)
Definition spec_parse_accepts (s : str) : Prop :=
  spec_time_format s = true ->
  exists td,
    parse_time_ago s = Return td
    /\ total_seconds td
       = digits_value 0 (numeric_prefix s) * unit_seconds (unit_of s).

(** C4 as the specification words it: a string outside the format is
    refused with the invalid-format error. *)
Definition spec_parse_rejects (s : str) : Prop :=
  spec_time_format s = false ->
  parse_time_ago s = Raise (TimeParseError (invalid_format_message s)).

(** C5 as the specification words it: the pass splits after the last newline
    at or before position [max_length] whenever that position is at least
    half of the limit. *)
Definition spec_splits_from_half (max_length : Z) (remaining : str) : Prop :=
  forall p,
    0 <= p <= max_length ->
    char_at remaining p = Some NEWLINE ->
    (forall i, p < i <= max_length -> char_at remaining i <> Some NEWLINE) ->
    max_length <= 2 * p ->
    forall fuel chunks,
      split_loop (S fuel) max_length remaining chunks
      = split_loop fuel max_length
          (lstrip (slice_from remaining (p + 1)))
          (chunks ++ [rstrip (slice_to remaining (p + 1))]).

(** C9 as the specification words it: the run gives exactly two chunks. *)
Definition spec_two_chunks (text : str) : Prop :=
  exists first second,
    split_text_into_chunks text EMBED_DESC_LIMIT = Some [first; second].

(** C10 as the specification words it: once the pattern has matched, the
    parser returns a duration. *)
Definition spec_returns_after_match (s : str) : Prop :=
  forall g, TIME_PATTERN_match (strip s) = Some g ->
            exists td, parse_time_ago s = Return td.

(** ** Startup: [config.get_required_env] and the two credentials *)

Module Startup.

(** How loading [config.py] ends: the value is bound, or [sys.exit(status)]
    stops the process. *)
Inductive startup (A : Type) : Type :=
| Loaded (a : A)
| Exited (status : Z).

Arguments Loaded {A} a.
Arguments Exited {A} status.

Definition missing_variable_message (key : str) : str :=
  lit "ERROR: Missing required environment variable: " ++ key.

Definition check_env_message : str :=
  lit "Please check your .env file and ensure all required variables are set.".

(** [config.py], lines 11-18: the lines printed and the outcome.  [getenv]
    is [os.getenv] once [load_dotenv()] has run; [if not value] holds for
    [None] and for the empty string. *)
Definition get_required_env (getenv : str -> option str) (key : str)
  : list str * startup str :=
  match getenv key with
  | Some ((_ :: _) as value) => ([], Loaded value)
  | _ => ([missing_variable_message key; check_env_message], Exited 1)
  end.

Record Credentials : Type := mk_Credentials
  { DISCORD_BOT_TOKEN : str; GEMINI_API_KEY : str }.

(** [config.py], lines 22-23: the two assignments, in order. *)
Definition load_credentials (getenv : str -> option str)
  : list str * startup Credentials :=
  match get_required_env getenv (lit "DISCORD_BOT_TOKEN") with
  | (printed, Exited status) => (printed, Exited status)
  | (printed, Loaded token) =>
      match get_required_env getenv (lit "GEMINI_API_KEY") with
      | (printed', Exited status) => (printed ++ printed', Exited status)
      | (printed', Loaded key) =>
          (printed ++ printed', Loaded (mk_Credentials token key))
      end
  end.

End Startup.

(** ** Observations on a run of the handler *)

(** The replies of a run ([interaction.followup.send]). *)
Definition is_send (ev : event) : bool :=
  match ev with SendContent _ | SendEmbeds _ => true | _ => false end.

Definition sends (run : IO unit) : list event := filter is_send (fst run).

(** The calls of the model of a run. *)
Definition is_generate (ev : event) : bool :=
  match ev with Generate _ => true | _ => false end.

Definition generations (run : IO unit) : list event :=
  filter is_generate (fst run).

(** The characters of a text that [strip] never removes, in order. *)
Definition visible (s : str) : str := filter (fun c => negb (is_space c)) s.

(** The window a duration of at most [MAX_TIME_RANGE_DAYS] days reaches back
    to, in microseconds. *)
Definition MAX_RANGE_MICROSECONDS : Z :=
  config.MAX_TIME_RANGE_DAYS * 86400 * 1000000.

(** [pieces text chunks]: [text] is the chunks in order, with nothing but
    whitespace before, between and after them. *)
Inductive pieces : str -> list str -> Prop :=
| pieces_end (ws : str) :
    forallb is_space ws = true -> pieces ws []
| pieces_chunk (ws chunk rest : str) (chunks : list str) :
    forallb is_space ws = true -> pieces rest chunks ->
    pieces (ws ++ chunk ++ rest) (chunk :: chunks).

(** A chunk that starts with a character [strip] keeps. *)
Definition starts_visible (c : str) : Prop :=
  exists x t, c = x :: t /\ is_space x = false.

(** The messages a fetch leaves to summarise (lines 200 and 211) and the
    prompt built from them (lines 214-225). *)
Definition summarized (fetched : list Message) : list Message :=
  sort_by_created_at (filter qualifies fetched).

Definition prompt_of (w : World) (focus : option str) (fetched : list Message)
  : str :=
  config.SUMMARY_PROMPT_format
    match focus with
    | Some ((_ :: _) as f) => f
    | _ => config.DEFAULT_FOCUS
    end
    (join [NEWLINE] (map (format_message w) (summarized fetched))).

(** Worlds to test the handler on: what the fetch and the model answer. *)
Definition world_with (fetch : result (list Message)) (answer : result str)
  : World :=
  mk_World 7200000000
    (fun _ _ _ => fetch)
    (fun _ => answer)
    (Return (lit "general"))
    (lit "ann")
    false
    (fun s => [39%N] ++ s ++ [39%N])
    (fun _ => lit "error").

Definition unqualified_history : list Message :=
  [ mk_Message (lit "ci-bot") true (lit "build #12 failed") 1500;
    mk_Message (lit "ann") false [32; 10]%N 1600 ].

(** * Proofs *)

(** Tactics of the proofs. *)

Ltac each_member H :=
  simpl in H; repeat (destruct H as [<-|H]; [reflexivity|]); contradiction H.

Ltac evaluate_unit :=
  cbn [map];
  repeat match goal with
    | |- context [unit_seconds ?c] =>
        let v := eval vm_compute in (unit_seconds c) in
        change (unit_seconds c) with v
    | |- context [str_eqb ?a ?b] =>
        let v := eval vm_compute in (str_eqb a b) in
        change (str_eqb a b) with v
    end;
  cbv iota.

Ltac io_step := cbn [bind lift emit ret try_except fst app filter is_fetch].

Ltac run_step :=
  cbn [bind lift emit ret try_except fst snd app filter is_fetch is_send
       is_generate length].


(** ** Strings *)

Lemma len_nonneg (s : str) : 0 <= len s.
Proof. unfold len; lia. Qed.

Lemma lstrip_length (s : str) : (length (lstrip s) <= length s)%nat.
Proof.
  induction s as [|c t IH]; simpl; [lia|].
  destruct (is_space c); simpl; lia.
Qed.

Lemma rstrip_length (s : str) : (length (rstrip s) <= length s)%nat.
Proof.
  unfold rstrip. rewrite length_rev.
  etransitivity; [apply lstrip_length|]. rewrite length_rev. lia.
Qed.

Lemma lstrip_head (c : N) (t : str) : is_space c = false -> lstrip (c :: t) = c :: t.
Proof. intros H; simpl; now rewrite H. Qed.

Lemma rstrip_snoc (s : str) (c : N) :
  is_space c = false -> rstrip (s ++ [c]) = s ++ [c].
Proof.
  intros H. unfold rstrip. rewrite rev_app_distr. simpl.
  rewrite H. simpl. now rewrite rev_involutive.
Qed.

Lemma rstrip_snoc_space (s : str) (c : N) :
  is_space c = true -> rstrip (s ++ [c]) = rstrip s.
Proof.
  intros H. unfold rstrip. rewrite rev_app_distr. simpl. now rewrite H.
Qed.

(** What [lstrip] returns is empty or starts with a character it keeps. *)
Lemma lstrip_starts (s : str) :
  lstrip s = [] \/ exists c t, lstrip s = c :: t /\ is_space c = false.
Proof.
  induction s as [|c t IH]; simpl; [now left|].
  destruct (is_space c) eqn:E; [exact IH|].
  right. now exists c, t.
Qed.

(** What [rstrip] returns is empty or ends with a character it keeps. *)
Lemma rstrip_ends (s : str) :
  rstrip s = [] \/ exists t c, rstrip s = t ++ [c] /\ is_space c = false.
Proof.
  unfold rstrip. destruct (lstrip_starts (rev s)) as [E|(c & t & E & Hc)].
  - left. now rewrite E.
  - right. exists (rev t), c. rewrite E. simpl. now split.
Qed.

Lemma strip_ends (s : str) :
  strip s = [] \/ exists t c, strip s = t ++ [c] /\ is_space c = false.
Proof. apply rstrip_ends. Qed.

Lemma slice_to_firstn (s : str) (k : Z) :
  0 <= k -> slice_to s k = firstn (Z.to_nat k) s.
Proof.
  intros Hk. unfold slice_to, norm_index.
  destruct (k <? 0) eqn:E; [lia|].
  destruct (Z.le_ge_cases k (len s)) as [H|H].
  - now rewrite Z.min_l.
  - rewrite Z.min_r by lia. unfold len. rewrite Nat2Z.id.
    rewrite firstn_all. symmetry. apply firstn_all2. unfold len in H. lia.
Qed.

Lemma slice_from_skipn (s : str) (k : Z) :
  0 <= k -> slice_from s k = skipn (Z.to_nat k) s.
Proof.
  intros Hk. unfold slice_from, norm_index.
  destruct (k <? 0) eqn:E; [lia|].
  destruct (Z.le_ge_cases k (len s)) as [H|H].
  - now rewrite Z.min_l.
  - rewrite Z.min_r by lia. unfold len. rewrite Nat2Z.id.
    rewrite skipn_all. symmetry. apply skipn_all2. unfold len in H. lia.
Qed.

Lemma slice_to_length (s : str) (k : Z) : len (slice_to s k) <= len s.
Proof. unfold slice_to, len. rewrite length_firstn. lia. Qed.

Lemma slice_to_len (s : str) (k : Z) :
  0 <= k <= len s -> len (slice_to s k) = k.
Proof.
  intros H. rewrite slice_to_firstn by lia. unfold len in *.
  rewrite length_firstn. lia.
Qed.

Lemma slice_from_len (s : str) (k : Z) :
  0 <= k <= len s -> len (slice_from s k) = len s - k.
Proof.
  intros H. rewrite slice_from_skipn by lia. unfold len in *.
  rewrite length_skipn. lia.
Qed.

Lemma char_at_slice_to (s : str) (k i : Z) :
  0 <= k -> i < k -> char_at (slice_to s k) i = char_at s i.
Proof.
  intros Hk Hi. unfold char_at. destruct (i <? 0) eqn:E; [reflexivity|].
  rewrite slice_to_firstn by lia. rewrite nth_error_firstn.
  destruct (Nat.ltb_spec (Z.to_nat i) (Z.to_nat k)); [reflexivity|lia].
Qed.

(** ** [rfind] *)

Lemma last_index_spec (c : N) (s : str) (i : Z) :
  0 <= i ->
  let r := last_index c s i in
  (r = -1 /\ forall j, nth_error s j <> Some c)
  \/ (i <= r < i + len s
      /\ nth_error s (Z.to_nat (r - i)) = Some c
      /\ forall j, (Z.to_nat (r - i) < j)%nat -> nth_error s j <> Some c).
Proof.
  revert i. induction s as [|x t IH]; intros i Hi; simpl.
  - left. split; [reflexivity|]. intros [|j]; discriminate.
  - destruct (IH (i + 1) ltac:(lia)) as [[E Hno]|(Hr & Hat & Hafter)].
    + rewrite E. simpl. destruct (N.eqb_spec x c) as [->|Hx].
      * right. rewrite Z.sub_diag. simpl. unfold len; simpl length.
        split; [lia|]. split; [reflexivity|].
        intros [|j] Hj; [lia|]. simpl. apply Hno.
      * left. split; [reflexivity|].
        intros [|j]; simpl; [congruence|apply Hno].
    + destruct (0 <=? last_index c t (i + 1)) eqn:E; [|lia].
      right. set (r := last_index c t (i + 1)) in *.
      unfold len in *; simpl length. split; [lia|].
      replace (Z.to_nat (r - i)) with (S (Z.to_nat (r - (i + 1)))) by lia.
      simpl. split; [exact Hat|].
      intros [|j] Hj; [lia|]. simpl. apply Hafter. lia.
Qed.

(** [rfind] returns [-1] or an index below [stop] that holds [c]. *)
Lemma rfind_range (s : str) (c : N) (stop : Z) :
  0 <= stop ->
  rfind s c stop = -1 \/ 0 <= rfind s c stop < stop /\ rfind s c stop < len s.
Proof.
  intros Hs. unfold rfind.
  destruct (last_index_spec c (slice_to s stop) 0 ltac:(lia)) as [[E _]|(Hr & _)].
  - now left.
  - right. pose proof (slice_to_length s stop).
    rewrite slice_to_firstn in * by lia. unfold len in *.
    rewrite length_firstn in *. lia.
Qed.

(** [rfind] is the last index below [stop] that holds [c]. *)
Lemma rfind_last (s : str) (c : N) (stop p : Z) :
  0 <= p < stop -> stop <= len s ->
  char_at s p = Some c ->
  (forall i, p < i < stop -> char_at s i <> Some c) ->
  rfind s c stop = p.
Proof.
  intros Hp Hstop Hat Hafter. unfold rfind.
  assert (Hat' : nth_error (slice_to s stop) (Z.to_nat p) = Some c).
  { pose proof (char_at_slice_to s stop p ltac:(lia) ltac:(lia)) as H.
    unfold char_at in H, Hat. destruct (p <? 0) eqn:E; [lia|]. congruence. }
  destruct (last_index_spec c (slice_to s stop) 0 ltac:(lia)) as [[_ Hno]|(Hr & Hc & Hlast)].
  - exfalso. exact (Hno _ Hat').
  - set (r := last_index c (slice_to s stop) 0) in *.
    rewrite Z.sub_0_r in *. rewrite slice_to_len in Hr by lia.
    destruct (Z.lt_trichotomy r p) as [Hlt|[Heq|Hgt]]; [|exact Heq|].
    + exfalso. apply (Hlast (Z.to_nat p)); [lia|exact Hat'].
    + exfalso. apply (Hafter r ltac:(lia)).
      rewrite <- (char_at_slice_to s stop r) by lia.
      unfold char_at. destruct (r <? 0) eqn:E; [lia|]. exact Hc.
Qed.

(** ** The chunker *)

(** The split point lies past the first half and at most at the limit. *)
Lemma split_point_range (remaining : str) (max_length : Z) :
  0 < max_length ->
  0 <= max_length / 2
  /\ max_length / 2 + 1 <= split_point remaining max_length <= max_length.
Proof.
  intros H. unfold split_point.
  assert (max_length / 2 < max_length) by (apply Z.div_lt; lia).
  assert (0 <= max_length / 2) by (apply Z.div_pos; lia).
  destruct (rfind_range remaining NEWLINE max_length ltac:(lia)) as [E|[E _]];
    destruct (max_length / 2 <? rfind remaining NEWLINE max_length) eqn:L; lia.
Qed.

(** One pass removes at least the split point from [remaining]. *)
Lemma remainder_shrinks (remaining : str) (max_length : Z) :
  0 < max_length -> max_length < len remaining ->
  len (lstrip (slice_from remaining (split_point remaining max_length)))
  <= len remaining - (max_length / 2 + 1).
Proof.
  intros H L. pose proof (split_point_range remaining max_length H) as R.
  pose proof (slice_from_len remaining (split_point remaining max_length) ltac:(lia)) as E.
  pose proof (lstrip_length (slice_from remaining (split_point remaining max_length))).
  unfold len in *. lia.
Qed.

Lemma chunk_within_limit (remaining : str) (max_length : Z) :
  0 < max_length -> max_length < len remaining ->
  len (rstrip (slice_to remaining (split_point remaining max_length))) <= max_length.
Proof.
  intros H L. pose proof (split_point_range remaining max_length H) as R.
  pose proof (slice_to_len remaining (split_point remaining max_length) ltac:(lia)) as E.
  pose proof (rstrip_length (slice_to remaining (split_point remaining max_length))).
  unfold len in *. lia.
Qed.

(** The loop only appends to [chunks]. *)
Lemma split_loop_acc (fuel : nat) (max_length : Z) (remaining : str) (chunks : list str) :
  split_loop fuel max_length remaining chunks
  = option_map (app chunks) (split_loop fuel max_length remaining []).
Proof.
  revert remaining chunks.
  induction fuel as [|fuel IH]; intros [|c t] chunks; simpl;
    try (now rewrite app_nil_r); try reflexivity.
  destruct (len (c :: t) <=? max_length); [reflexivity|].
  rewrite IH. rewrite (IH _ [_]).
  destruct (split_loop fuel max_length _ []); simpl; [|reflexivity].
  now rewrite <- app_assoc.
Qed.

(** More fuel does not change a finished run. *)
Lemma split_loop_mono (fuel fuel' : nat) (max_length : Z) (remaining : str)
  (chunks out : list str) :
  (fuel <= fuel')%nat ->
  split_loop fuel max_length remaining chunks = Some out ->
  split_loop fuel' max_length remaining chunks = Some out.
Proof.
  revert fuel' remaining chunks.
  induction fuel as [|fuel IH]; intros fuel' [|c t] chunks Hle Hrun;
    try (destruct fuel'; exact Hrun); try discriminate.
  destruct fuel' as [|fuel']; [lia|]. simpl in *.
  destruct (len (c :: t) <=? max_length); [exact Hrun|].
  apply IH; [lia|exact Hrun].
Qed.

(** The loop ends within [len remaining / (max_length // 2 + 1) + 1] passes. *)
Lemma split_loop_steps (fuel : nat) (max_length : Z) (remaining : str) (chunks : list str) :
  0 < max_length ->
  len remaining / (max_length / 2 + 1) + 1 <= Z.of_nat fuel ->
  exists out, split_loop fuel max_length remaining chunks = Some out.
Proof.
  intros H. assert (Hh : 0 < max_length / 2 + 1) by (pose proof (Z.div_pos max_length 2); lia).
  revert remaining chunks.
  induction fuel as [|fuel IH]; intros remaining chunks Hf.
  - pose proof (Z.div_pos (len remaining) (max_length / 2 + 1) (len_nonneg _) Hh). lia.
  - destruct remaining as [|c t]; [now eexists|].
    simpl. destruct (len (c :: t) <=? max_length) eqn:L; [now eexists|].
    apply IH. apply Z.leb_gt in L.
    pose proof (remainder_shrinks (c :: t) max_length H L) as S.
    set (r' := lstrip _) in *.
    assert (len r' / (max_length / 2 + 1) <= (len (c :: t) - (max_length / 2 + 1)) / (max_length / 2 + 1))
      by (apply Z.div_le_mono; lia).
    replace (len (c :: t) - (max_length / 2 + 1))
      with (len (c :: t) + (-1) * (max_length / 2 + 1)) in * by lia.
    rewrite Z.div_add in * by lia. lia.
Qed.

(** The loop ends within [len remaining] passes. *)
Lemma split_loop_total (fuel : nat) (max_length : Z) (remaining : str) (chunks : list str) :
  0 < max_length -> (length remaining <= fuel)%nat ->
  exists out, split_loop fuel max_length remaining chunks = Some out.
Proof.
  intros H. revert remaining chunks.
  induction fuel as [|fuel IH]; intros [|c t] chunks Hf;
    try (simpl in Hf; lia); try (eexists; reflexivity).
  simpl. destruct (len (c :: t) <=? max_length) eqn:L; [now eexists|].
  apply IH. apply Z.leb_gt in L.
  pose proof (remainder_shrinks (c :: t) max_length H L) as S.
  assert (0 <= max_length / 2) by (apply Z.div_pos; lia).
  unfold len in *. simpl length in *. lia.
Qed.

(** The loop keeps every chunk within the limit. *)
Lemma split_loop_within (fuel : nat) (max_length : Z) (remaining : str)
  (chunks out : list str) :
  0 < max_length ->
  Forall (fun c => len c <= max_length) chunks ->
  split_loop fuel max_length remaining chunks = Some out ->
  Forall (fun c => len c <= max_length) out.
Proof.
  intros H. revert remaining chunks.
  induction fuel as [|fuel IH]; intros [|c t] chunks Hall Hrun; simpl in Hrun;
    try discriminate; try (injection Hrun as <-; exact Hall).
  destruct (len (c :: t) <=? max_length) eqn:L.
  - injection Hrun as <-. apply Forall_app. split; [exact Hall|].
    constructor; [|constructor]. now apply Z.leb_le.
  - apply Z.leb_gt in L. eapply IH; [|exact Hrun].
    apply Forall_app. split; [exact Hall|].
    constructor; [|constructor]. now apply chunk_within_limit.
Qed.

(** The run of [split_text_into_chunks] ends for every positive limit. *)
Lemma split_text_into_chunks_total (text : str) (max_length : Z) :
  0 < max_length -> exists chunks, split_text_into_chunks text max_length = Some chunks.
Proof.
  intros H. unfold split_text_into_chunks, split_text_into_chunks_fuel.
  destruct (len text <=? max_length); [now eexists|].
  now apply split_loop_total.
Qed.

(** Every chunk of a finished run is within a positive limit. *)
Lemma split_text_into_chunks_within (text : str) (max_length : Z) (chunks : list str) :
  0 < max_length ->
  split_text_into_chunks text max_length = Some chunks ->
  Forall (fun c => len c <= max_length) chunks.
Proof.
  intros H E. unfold split_text_into_chunks, split_text_into_chunks_fuel in E.
  destruct (len text <=? max_length) eqn:L.
  - injection E as <-. constructor; [|constructor]. now apply Z.leb_le.
  - eapply split_loop_within; [exact H| |exact E]. constructor.
Qed.

(** The first pass, when no newline is eligible. *)
Lemma split_point_no_newline (remaining : str) (max_length : Z) :
  0 < max_length -> max_length < len remaining ->
  (forall i, max_length / 2 < i < max_length -> char_at remaining i <> Some NEWLINE) ->
  split_point remaining max_length = max_length.
Proof.
  intros H L Hno. unfold split_point.
  destruct (max_length / 2 <? rfind remaining NEWLINE max_length) eqn:E; [|reflexivity].
  apply Z.ltb_lt in E. exfalso.
  assert (0 <= max_length / 2) by (apply Z.div_pos; lia).
  set (r := rfind remaining NEWLINE max_length) in *.
  destruct (rfind_range remaining NEWLINE max_length ltac:(lia)) as [R|[R R']]; fold r in R; [lia|].
  apply (Hno r ltac:(lia)).
  unfold r, rfind in *.
  destruct (last_index_spec NEWLINE (slice_to remaining max_length) 0 ltac:(lia))
    as [[E' _]|(_ & Hc & _)]; [lia|].
  rewrite Z.sub_0_r in Hc.
  rewrite <- (char_at_slice_to remaining max_length) by lia.
  unfold char_at. destruct (_ <? 0) eqn:E0; [lia|]. exact Hc.
Qed.

(** The first pass, when the last newline below the limit is past the half. *)
Lemma split_point_newline (remaining : str) (max_length p : Z) :
  0 < max_length -> max_length < len remaining ->
  max_length / 2 < p < max_length ->
  char_at remaining p = Some NEWLINE ->
  (forall i, p < i < max_length -> char_at remaining i <> Some NEWLINE) ->
  split_point remaining max_length = p + 1.
Proof.
  intros H L Hp Hat Hafter. unfold split_point.
  assert (0 <= max_length / 2) by (apply Z.div_pos; lia).
  rewrite (rfind_last remaining NEWLINE max_length p) by (try assumption; lia).
  destruct (max_length / 2 <? p) eqn:E; [reflexivity|lia].
Qed.

Lemma firstn_snoc (s : str) (n : nat) (c : N) :
  nth_error s n = Some c -> firstn (S n) s = firstn n s ++ [c].
Proof.
  revert n. induction s as [|x t IH]; intros [|n] H; simpl in *; try discriminate.
  - now injection H as ->.
  - f_equal. now apply IH.
Qed.

Lemma slice_to_snoc (s : str) (p : Z) (c : N) :
  0 <= p -> char_at s p = Some c -> slice_to s (p + 1) = slice_to s p ++ [c].
Proof.
  intros Hp H. rewrite !slice_to_firstn by lia.
  replace (Z.to_nat (p + 1)) with (S (Z.to_nat p)) by lia.
  apply firstn_snoc. unfold char_at in H.
  destruct (p <? 0) eqn:E; [lia|exact H].
Qed.

(** One pass of the loop on a [remaining] longer than the limit. *)
Lemma split_loop_pass (fuel : nat) (max_length : Z) (remaining : str) (chunks : list str) :
  max_length < len remaining -> remaining <> [] ->
  split_loop (S fuel) max_length remaining chunks
  = split_loop fuel max_length
      (lstrip (slice_from remaining (split_point remaining max_length)))
      (chunks ++ [rstrip (slice_to remaining (split_point remaining max_length))]).
Proof.
  intros L Hne. destruct remaining as [|c t]; [congruence|].
  simpl. apply Z.leb_gt in L. now rewrite L.
Qed.

(** The pass that ends the loop. *)
Lemma split_loop_final (fuel : nat) (max_length : Z) (remaining : str) (acc : list str) :
  remaining <> [] -> len remaining <= max_length ->
  split_loop (S fuel) max_length remaining acc = Some (acc ++ [remaining]).
Proof.
  intros Hne Hfit. destruct remaining as [|c t]; [congruence|].
  simpl. apply Z.leb_le in Hfit. now rewrite Hfit.
Qed.

Lemma longer_nonempty (remaining : str) (max_length : Z) :
  0 < max_length -> max_length < len remaining -> remaining <> [].
Proof. intros H L ->. unfold len in L. simpl in L. lia. Qed.

(** What a pass leaves of [remaining] is one of its suffixes. *)
Lemma lstrip_suffix (s : str) : exists pre, s = pre ++ lstrip s.
Proof.
  induction s as [|c t [pre IH]]; [now exists []|].
  simpl. destruct (is_space c).
  - exists (c :: pre). simpl. now rewrite <- IH.
  - now exists [].
Qed.

Lemma remainder_suffix (s : str) (k : Z) :
  exists pre, s = pre ++ lstrip (slice_from s k).
Proof.
  destruct (lstrip_suffix (slice_from s k)) as [pre E].
  exists (slice_to s k ++ pre). rewrite <- app_assoc, <- E.
  unfold slice_to, slice_from. now rewrite firstn_skipn.
Qed.

(** A loop that runs out of [len remaining] passes runs out of any fuel:
    some pass left [remaining] as it was. *)
Lemma split_loop_diverges (fuel : nat) (max_length : Z) (remaining : str) :
  (length remaining <= fuel)%nat ->
  split_loop fuel max_length remaining [] = None ->
  forall fuel', split_loop fuel' max_length remaining [] = None.
Proof.
  revert remaining. induction fuel as [|fuel IH]; intros remaining Hf Hrun.
  - destruct remaining; [discriminate|]. simpl in Hf. lia.
  - destruct remaining as [|c t]; [discriminate|].
    simpl in Hrun. destruct (len (c :: t) <=? max_length) eqn:L; [discriminate|].
    rewrite split_loop_acc in Hrun.
    set (rest := lstrip (slice_from (c :: t) (split_point (c :: t) max_length))) in *.
    assert (Hrest : split_loop fuel max_length rest [] = None)
      by (destruct (split_loop fuel max_length rest []); [discriminate|reflexivity]).
    destruct (remainder_suffix (c :: t) (split_point (c :: t) max_length)) as [pre E].
    fold rest in E.
    destruct pre as [|x pre].
    + simpl in E. clear IH Hrest.
      intros fuel'. induction fuel' as [|fuel' IH']; [reflexivity|].
      simpl. rewrite L. rewrite split_loop_acc. fold rest. rewrite <- E.
      now rewrite IH'.
    + assert (Hshort : (length rest <= fuel)%nat).
      { apply (f_equal (@length N)) in E. rewrite length_app in E.
        simpl in E, Hf. lia. }
      intros [|fuel']; [reflexivity|].
      simpl. rewrite L. rewrite split_loop_acc. fold rest.
      now rewrite (IH rest Hshort Hrest).
Qed.

(** [None] from [split_text_into_chunks] is a run that never ends. *)
Lemma split_text_into_chunks_diverges (text : str) (max_length : Z) :
  split_text_into_chunks text max_length = None ->
  forall fuel, split_text_into_chunks_fuel fuel text max_length = None.
Proof.
  unfold split_text_into_chunks, split_text_into_chunks_fuel.
  destruct (len text <=? max_length); [discriminate|].
  intros H fuel. now apply (split_loop_diverges (length text)).
Qed.

(** ** The parser *)

Lemma is_space_In (c : N) : is_space c = true -> In c whitespace.
Proof.
  unfold is_space. intros H. apply existsb_exists in H as (x & Hin & E).
  apply N.eqb_eq in E. now subst.
Qed.

Lemma is_unit_letter_In (c : N) : is_unit_letter c = true <-> In c unit_letters.
Proof.
  unfold is_unit_letter. rewrite existsb_exists. split.
  - intros (x & Hin & E). apply N.eqb_eq in E. now subst.
  - intros Hin. exists c. split; [exact Hin|apply N.eqb_refl].
Qed.

(** No decimal digit is stripped as whitespace. *)
Lemma decimal_not_space (c : N) : is_decimal c = true -> is_space c = false.
Proof.
  intros D. destruct (is_space c) eqn:E; [|reflexivity].
  apply is_space_In in E. rewrite <- D. symmetry. each_member E.
Qed.

Lemma unit_not_decimal (u : N) : is_unit_letter u = true -> is_decimal u = false.
Proof. intros H. apply is_unit_letter_In in H. each_member H. Qed.

Lemma unit_not_space (u : N) : is_unit_letter u = true -> is_space u = false.
Proof. intros H. apply is_unit_letter_In in H. each_member H. Qed.

Lemma take_drop_while (p : N -> bool) (s : str) :
  take_while p s ++ drop_while p s = s.
Proof.
  induction s as [|c t IH]; simpl; [reflexivity|].
  destruct (p c); simpl; [now rewrite IH|reflexivity].
Qed.

Lemma take_while_all (p : N -> bool) (s : str) : forallb p (take_while p s) = true.
Proof.
  induction s as [|c t IH]; simpl; [reflexivity|].
  destruct (p c) eqn:E; simpl; [now rewrite E|reflexivity].
Qed.

Lemma take_while_app (p : N -> bool) (a : str) (u : N) (rest : str) :
  forallb p a = true -> p u = false ->
  take_while p (a ++ u :: rest) = a /\ drop_while p (a ++ u :: rest) = u :: rest.
Proof.
  intros Ha Hu. induction a as [|c t IH]; simpl in *.
  - now rewrite Hu.
  - apply andb_prop in Ha as [Hc Ht]. rewrite Hc.
    destruct (IH Ht) as [-> ->]. now split.
Qed.

(** The format of the specification, spelled out. *)
Lemma spec_time_format_iff (s : str) :
  spec_time_format s = true
  <-> exists digits u,
        s = digits ++ [u] /\ digits <> []
        /\ forallb is_decimal digits = true /\ is_unit_letter u = true.
Proof.
  unfold spec_time_format, numeric_prefix, unit_of. split.
  - intros H. destruct (removelast s) as [|c t] eqn:E; [discriminate|].
    apply andb_prop in H as [Hall Hu].
    exists (c :: t), (last s 0%N). rewrite <- E.
    repeat split; try congruence.
    apply app_removelast_last. intros ->. discriminate.
  - intros (digits & u & -> & Hne & Hall & Hu).
    rewrite removelast_last, last_last.
    destruct digits; [congruence|]. now rewrite Hall, Hu.
Qed.

(** What a successful match of [TIME_PATTERN] says of the string. *)
Lemma TIME_PATTERN_match_inv (s g1 g2 : str) :
  TIME_PATTERN_match s = Some (g1, g2) ->
  exists u,
    g2 = [u] /\ g1 <> [] /\ forallb is_decimal g1 = true
    /\ is_unit_letter u = true
    /\ (s = g1 ++ [u] \/ s = g1 ++ [u; NEWLINE]).
Proof.
  unfold TIME_PATTERN_match.
  pose proof (take_drop_while is_decimal s) as E.
  pose proof (take_while_all is_decimal s) as A.
  destruct (take_while is_decimal s) as [|d ds]; [discriminate|].
  destruct (drop_while is_decimal s) as [|u [|nl [|x r]]]; try discriminate.
  - destruct (is_unit_letter u) eqn:U; [|discriminate].
    intros [= <- <-]. exists u. repeat split; try congruence. now left.
  - destruct (is_unit_letter u) eqn:U; [|discriminate].
    destruct (N.eqb_spec nl NEWLINE) as [->|]; [|discriminate].
    intros [= <- <-]. exists u. repeat split; try congruence. now right.
Qed.

Lemma TIME_PATTERN_match_format (digits : str) (u : N) :
  digits <> [] -> forallb is_decimal digits = true -> is_unit_letter u = true ->
  TIME_PATTERN_match (digits ++ [u]) = Some (digits, [u]).
Proof.
  intros Hne Hall Hu. unfold TIME_PATTERN_match.
  destruct (take_while_app is_decimal digits u [] Hall (unit_not_decimal u Hu)) as [-> ->].
  destruct digits; [congruence|]. now rewrite Hu.
Qed.

(** On a stripped string the match succeeds exactly on the format. *)
Lemma TIME_PATTERN_match_strip (s : str) :
  spec_time_format (strip s) = true
  <-> exists g, TIME_PATTERN_match (strip s) = Some g.
Proof.
  rewrite spec_time_format_iff. split.
  - intros (digits & u & -> & Hne & Hall & Hu).
    eexists. now apply TIME_PATTERN_match_format.
  - intros [[g1 g2] M]. apply TIME_PATTERN_match_inv in M as (u & -> & Hne & Hall & Hu & [E|E]).
    + now exists g1, u.
    + exfalso. destruct (strip_ends s) as [E'|(t & c & E' & Hc)].
      * rewrite E' in E. destruct g1; discriminate.
      * rewrite E' in E. change [u; NEWLINE] with ([u] ++ [NEWLINE]) in E.
        rewrite app_assoc in E. apply app_inj_tail in E as [_ ->]. discriminate.
Qed.

(** After [strip] the match never uses the newline [$] tolerates. *)
Lemma TIME_PATTERN_match_strip_inv (s g1 g2 : str) :
  TIME_PATTERN_match (strip s) = Some (g1, g2) ->
  exists u,
    g2 = [u] /\ strip s = g1 ++ [u] /\ g1 <> []
    /\ forallb is_decimal g1 = true /\ is_unit_letter u = true.
Proof.
  intros M. apply TIME_PATTERN_match_inv in M as (u & -> & Hne & Hall & Hu & [E|E]).
  - now exists u.
  - exfalso. destruct (strip_ends s) as [E'|(t & c & E' & Hc)].
    + rewrite E' in E. destruct g1; discriminate.
    + rewrite E' in E. change [u; NEWLINE] with ([u] ++ [NEWLINE]) in E.
      rewrite app_assoc in E. apply app_inj_tail in E as [_ ->]. discriminate.
Qed.

(** A string in the format has nothing to strip. *)
Lemma strip_format (digits : str) (u : N) :
  digits <> [] -> forallb is_decimal digits = true -> is_unit_letter u = true ->
  strip (digits ++ [u]) = digits ++ [u].
Proof.
  intros Hne Hall Hu. unfold strip.
  destruct digits as [|c t]; [congruence|].
  simpl in Hall. apply andb_prop in Hall as [Hc _].
  change ((c :: t) ++ [u]) with (c :: (t ++ [u])).
  rewrite lstrip_head by now apply decimal_not_space.
  change (c :: (t ++ [u])) with ((c :: t) ++ [u]).
  apply rstrip_snoc. now apply unit_not_space.
Qed.

Lemma decimal_value_range (c : N) (d : Z) : decimal_value c = Some d -> 0 <= d < 10.
Proof.
  unfold decimal_value. destruct (find (in_block c) decimal_blocks) as [b|] eqn:E;
    [|discriminate].
  apply find_some in E as [_ E]. unfold in_block in E.
  apply andb_prop in E as [E1 E2]. apply N.leb_le in E1. apply N.ltb_lt in E2.
  intros [= <-]. lia.
Qed.

Lemma digits_value_nonneg (s : str) (acc : Z) : 0 <= acc -> 0 <= digits_value acc s.
Proof.
  revert acc. induction s as [|c t IH]; intros acc H; cbn [digits_value]; [exact H|].
  destruct (decimal_value c) as [d|] eqn:E; [|exact H].
  apply IH. pose proof (decimal_value_range c d E). lia.
Qed.

Lemma timedelta_new_normalized (d h m : Z) (td : timedelta) :
  timedelta_new d h m = Return td -> normalized td /\ microseconds td = 0.
Proof.
  unfold timedelta_new. destruct (_ || _); [discriminate|].
  intros [= <-]. unfold normalized. simpl.
  pose proof (Z.mod_pos_bound (d * 86400 + h * 3600 + m * 60) 86400 ltac:(lia)). lia.
Qed.

Lemma timedelta_new_nonneg (d h m : Z) :
  0 <= d * 86400 + h * 3600 + m * 60 ->
  timedelta_new d h m = duration_of_seconds (d * 86400 + h * 3600 + m * 60).
Proof.
  intros H. unfold timedelta_new, duration_of_seconds.
  pose proof (Z.div_pos _ 86400 H ltac:(lia)) as Hd.
  destruct (_ / 86400 <? - MAX_DELTA_DAYS) eqn:E; [|reflexivity].
  apply Z.ltb_lt in E. unfold MAX_DELTA_DAYS in E. lia.
Qed.

(** [parse_time_ago] on a string whose stripped form is in the format. *)
Lemma parse_time_ago_format (s digits : str) (u : N) :
  strip s = digits ++ [u] ->
  digits <> [] -> forallb is_decimal digits = true -> is_unit_letter u = true ->
  parse_time_ago s =
    if MAX_STR_DIGITS <? len digits then Raise ValueError
    else duration_of_seconds (digits_value 0 digits * unit_seconds u).
Proof.
  intros E Hne Hall Hu. unfold parse_time_ago.
  rewrite E, TIME_PATTERN_match_format by assumption.
  unfold int. destruct (MAX_STR_DIGITS <? len digits); [reflexivity|].
  pose proof (digits_value_nonneg digits 0 ltac:(lia)) as Hv.
  destruct (digits_value 0 digits <? 0) eqn:Hneg; [lia|].
  apply is_unit_letter_In in Hu. simpl in Hu.
  repeat (destruct Hu as [<-|Hu];
          [evaluate_unit; rewrite timedelta_new_nonneg by lia; f_equal; lia|]).
  contradiction Hu.
Qed.

Lemma lstrip_spaces (ws x : str) :
  forallb is_space ws = true -> lstrip (ws ++ x) = lstrip x.
Proof.
  induction ws as [|c t IH]; intros H; [reflexivity|].
  simpl in H. apply andb_prop in H as [Hc Ht]. simpl. rewrite Hc. now apply IH.
Qed.

Lemma forallb_rev (p : N -> bool) (s : str) :
  forallb p s = true -> forallb p (rev s) = true.
Proof.
  rewrite !forallb_forall. intros H x Hin. apply H. now apply in_rev.
Qed.

Lemma rstrip_spaces (x ws : str) :
  forallb is_space ws = true -> rstrip (x ++ ws) = rstrip x.
Proof.
  intros H. unfold rstrip. rewrite rev_app_distr.
  now rewrite lstrip_spaces by now apply forallb_rev.
Qed.

(** A string in the format, padded with whitespace, strips back to itself. *)
Lemma strip_padded_format (ws1 s ws2 : str) :
  forallb is_space ws1 = true -> forallb is_space ws2 = true ->
  spec_time_format s = true ->
  strip (ws1 ++ s ++ ws2) = s.
Proof.
  intros H1 H2 F.
  apply spec_time_format_iff in F as (digits & u & -> & Hne & Hall & Hu).
  pose proof (strip_format digits u Hne Hall Hu) as S.
  unfold strip in *. rewrite lstrip_spaces by assumption.
  destruct digits as [|c t]; [congruence|].
  pose proof Hall as Hall'. simpl in Hall'. apply andb_prop in Hall' as [Hc _].
  change (((c :: t) ++ [u]) ++ ws2) with (c :: ((t ++ [u]) ++ ws2)).
  rewrite lstrip_head by now apply decimal_not_space.
  change (c :: ((t ++ [u]) ++ ws2)) with (((c :: t) ++ [u]) ++ ws2).
  rewrite rstrip_spaces by assumption.
  change ((c :: t) ++ [u]) with (c :: (t ++ [u])) in S.
  rewrite lstrip_head in S by now apply decimal_not_space.
  exact S.
Qed.

(** What the parser returns or raises depends on the stripped string alone,
    the quoted string of the invalid-format error apart. *)
Lemma parse_time_ago_of_strip (s s' : str) :
  strip s = strip s' -> spec_time_format (strip s) = true ->
  parse_time_ago s = parse_time_ago s'.
Proof.
  intros E F. pose proof F as F'. rewrite E in F'.
  apply spec_time_format_iff in F as (digits & u & Es & Hne & Hall & Hu).
  rewrite (parse_time_ago_format s digits u Es Hne Hall Hu).
  rewrite E in Es.
  now rewrite (parse_time_ago_format s' digits u Es Hne Hall Hu).
Qed.

(** ** The chunking scenario *)

Lemma newline_every_80_shift (t : str) (i j : Z) :
  i mod 80 = j mod 80 ->
  newline_every_80_from i t = newline_every_80_from j t.
Proof.
  revert i j. induction t as [|c t IH]; intros i j H;
    cbn [newline_every_80_from]; [reflexivity|].
  assert (E : (i + 1) mod 80 = (j + 1) mod 80)
    by (rewrite (Z.add_mod i 1), (Z.add_mod j 1), H by lia; reflexivity).
  rewrite E. f_equal. now apply IH.
Qed.

Lemma newline_every_80_nth (t : str) (i : Z) (k : nat) (c : N) :
  newline_every_80_from i t = true -> nth_error t k = Some c ->
  if (i + Z.of_nat k + 1) mod 80 =? 0 then c = NEWLINE else is_space c = false.
Proof.
  revert i k. induction t as [|x t IH]; intros i [|k] H E;
    cbn [newline_every_80_from nth_error] in *; try discriminate.
  - injection E as ->. apply andb_prop in H as [H _].
    change (Z.of_nat 0) with 0. rewrite Z.add_0_r.
    destruct ((i + 1) mod 80 =? 0); [now apply N.eqb_eq|now apply negb_true_iff].
  - apply andb_prop in H as [_ H]. specialize (IH (i + 1) k H E).
    now replace (i + Z.of_nat (S k) + 1) with (i + 1 + Z.of_nat k + 1) by lia.
Qed.

Lemma newline_every_80_skipn (t : str) (i : Z) (n : nat) :
  newline_every_80_from i t = true ->
  newline_every_80_from (i + Z.of_nat n) (skipn n t) = true.
Proof.
  revert i t. induction n as [|n IH]; intros i t H.
  - change (Z.of_nat 0) with 0. now rewrite Z.add_0_r.
  - destruct t as [|c t]; [reflexivity|].
    cbn [newline_every_80_from] in H. apply andb_prop in H as [_ H].
    cbn [skipn]. replace (i + Z.of_nat (S n)) with (i + 1 + Z.of_nat n) by lia.
    now apply IH.
Qed.

Lemma char_at_nat (s : str) (k : nat) : char_at s (Z.of_nat k) = nth_error s k.
Proof.
  unfold char_at. destruct (Z.ltb_spec (Z.of_nat k) 0); [lia|]. now rewrite Nat2Z.id.
Qed.

(** One pass of the loop on a text of the scenario longer than the limit. *)
Lemma scenario_pass (fuel : nat) (t : str) (acc : list str) :
  newline_every_80 t = true -> 4096 < len t ->
  split_loop (S fuel) 4096 t acc
  = split_loop fuel 4096 (skipn 4080 t) (acc ++ [firstn 4079 t]).
Proof.
  intros P L. unfold newline_every_80 in P.
  assert (Hget : forall k, (k < 4097)%nat -> exists c, nth_error t k = Some c).
  { intros k Hk. destruct (nth_error t k) as [c|] eqn:E; [now exists c|].
    apply nth_error_None in E. unfold len in L. lia. }
  assert (Hchar : forall k c, nth_error t k = Some c ->
            if (Z.of_nat k + 1) mod 80 =? 0 then c = NEWLINE else is_space c = false)
    by (intros k c; apply (newline_every_80_nth t 0 k c P)).
  assert (Hnl : nth_error t 4079 = Some NEWLINE).
  { destruct (Hget 4079%nat ltac:(lia)) as [c E].
    pose proof (Hchar _ _ E) as Hc. change ((Z.of_nat 4079 + 1) mod 80 =? 0) with true in Hc.
    now rewrite E, Hc. }
  assert (Hbefore : exists c, nth_error t 4078 = Some c /\ is_space c = false).
  { destruct (Hget 4078%nat ltac:(lia)) as [c E]. exists c. split; [exact E|].
    exact (Hchar _ _ E). }
  assert (Hafter : forall k c, (4080 <= k < 4096)%nat -> nth_error t k = Some c ->
            is_space c = false).
  { intros k c Hk E. pose proof (Hchar _ _ E) as Hc.
    assert (M : (Z.of_nat k + 1) mod 80 = Z.of_nat k + 1 - 4080)
      by (symmetry; apply Z.mod_unique with (q := 51); lia).
    rewrite M in Hc. destruct (Z.eqb_spec (Z.of_nat k + 1 - 4080) 0); [lia|exact Hc]. }
  rewrite split_loop_pass by (try lia; intros ->; unfold len in L; simpl in L; lia).
  rewrite (split_point_newline t 4096 4079); try lia.
  - change (4079 + 1) with 4080.
    rewrite slice_from_skipn, slice_to_firstn by lia.
    change (Z.to_nat 4080) with 4080%nat.
    f_equal.
    + destruct (Hget 4080%nat ltac:(lia)) as [c E].
      pose proof (Hafter 4080%nat c ltac:(lia) E) as Hc.
      destruct (skipn 4080 t) as [|c' r] eqn:Hs.
      * reflexivity.
      * assert (c' = c).
        { pose proof (nth_error_skipn 4080 t 0) as X. rewrite Hs in X.
          cbn [nth_error] in X. rewrite Nat.add_0_r in X. congruence. }
        subst c'. now apply lstrip_head.
    + f_equal. f_equal.
      rewrite (firstn_snoc t 4079 NEWLINE Hnl).
      rewrite rstrip_snoc_space by reflexivity.
      destruct Hbefore as (c & E & Hc).
      rewrite (firstn_snoc t 4078 c E). now apply rstrip_snoc.
  - change (4096 / 2) with 2048. lia.
  - exact (eq_trans (char_at_nat t 4079%nat) Hnl).
  - intros i Hi. rewrite <- (Z2Nat.id i) by lia. rewrite char_at_nat.
    intros E. pose proof (Hafter (Z.to_nat i) NEWLINE ltac:(lia) E) as Hc.
    discriminate Hc.
Qed.

(** ** Tests *)

Example split_short : split_text_into_chunks (lit "hello") 10 = Some [lit "hello"].
Proof. reflexivity. Qed.

Example split_limit_zero : split_text_into_chunks (lit "abc") 0 = None.
Proof. reflexivity. Qed.

Example split_half :
  split_text_into_chunks (lit "ab" ++ [NEWLINE] ++ lit "cdefg") 4
  = Some [lit "ab" ++ [NEWLINE] ++ lit "c"; lit "defg"].
Proof. reflexivity. Qed.

Example parse_1h : parse_time_ago (lit "1h") = Return (mk_timedelta 0 3600 0).
Proof. reflexivity. Qed.

Example parse_padded : parse_time_ago (lit " 90M ") = Return (mk_timedelta 0 5400 0).
Proof. reflexivity. Qed.

Example parse_big : parse_time_ago (lit "1000000000d") = Raise OverflowError.
Proof. reflexivity. Qed.

Example parse_bad : parse_time_ago (lit "-1h") = Raise (TimeParseError (invalid_format_message (lit "-1h"))).
Proof. reflexivity. Qed.

Example parse_arabic : parse_time_ago [1635; 104]%N = Return (mk_timedelta 0 10800 0).
Proof. reflexivity. Qed.

(** ** Durations *)

(** On normalised durations the comparison is that of the magnitudes. *)
Lemma compare_total (a b : timedelta) :
  normalized a -> normalized b ->
  Timedelta.compare a b = (total_microseconds a ?= total_microseconds b).
Proof.
  unfold normalized, Timedelta.compare, total_microseconds, total_seconds.
  intros [Ha Ha'] [Hb Hb'].
  destruct (Z.compare_spec (days a) (days b)) as [E|E|E];
    [destruct (Z.compare_spec (seconds a) (seconds b)) as [E'|E'|E'];
     [destruct (Z.compare_spec (microseconds a) (microseconds b)) as [E''|E''|E'']|..]|..];
    symmetry; first [apply Z.compare_eq_iff | apply Z.compare_lt_iff | apply Z.compare_gt_iff];
    lia.
Qed.

Lemma gtb_seconds (a b : timedelta) :
  normalized a -> normalized b -> microseconds a = 0 -> microseconds b = 0 ->
  gtb a b = (total_seconds b <? total_seconds a).
Proof.
  intros Ha Hb Ua Ub. unfold gtb. rewrite compare_total by assumption.
  unfold total_microseconds. rewrite Ua, Ub.
  destruct (Z.compare_spec (total_seconds a * 1000000 + 0) (total_seconds b * 1000000 + 0));
    destruct (Z.ltb_spec (total_seconds b) (total_seconds a)); try reflexivity; lia.
Qed.

Lemma geb_seconds (a b : timedelta) :
  normalized a -> normalized b -> microseconds a = 0 -> microseconds b = 0 ->
  geb a b = (total_seconds b <=? total_seconds a).
Proof.
  intros Ha Hb Ua Ub. unfold geb. rewrite compare_total by assumption.
  unfold total_microseconds. rewrite Ua, Ub.
  destruct (Z.compare_spec (total_seconds a * 1000000 + 0) (total_seconds b * 1000000 + 0));
    destruct (Z.leb_spec (total_seconds b) (total_seconds a)); try reflexivity; lia.
Qed.

(** What the parser returns is normalised, in whole seconds. *)
Lemma parse_time_ago_normalized (s : str) (td : timedelta) :
  parse_time_ago s = Return td -> normalized td /\ microseconds td = 0.
Proof.
  unfold parse_time_ago.
  destruct (TIME_PATTERN_match (strip s)) as [[g1 g2]|]; [|discriminate].
  destruct (int g1) as [value|]; [|discriminate].
  destruct (value <? 0); [discriminate|].
  repeat (destruct (str_eqb _ _); [apply timedelta_new_normalized|]).
  discriminate.
Qed.

(** ** The handler *)

Lemma embeds_from_length (i n : Z) (line : str) (shown : list str) :
  length (embeds_from i n line shown) = length shown.
Proof.
  revert i. induction shown as [|c t IH]; intros i; simpl; [reflexivity|].
  now rewrite IH.
Qed.

Lemma embeds_from_description (i n : Z) (line : str) (shown : list str) :
  map description (embeds_from i n line shown) = shown.
Proof.
  revert i. induction shown as [|c t IH]; intros i; simpl; [reflexivity|].
  now rewrite IH.
Qed.

Lemma embeds_from_nth (i n : Z) (line : str) (shown : list str) (k : nat) (e : Embed) :
  nth_error (embeds_from i n line shown) k = Some e ->
  title e = (if i + Z.of_nat k =? 0 then Some TITLE else None)
  /\ footer e = (if (i + Z.of_nat k =? n - 1)
                    || (i + Z.of_nat k =? MAX_EMBEDS_PER_MESSAGE - 1)
                 then Some line else None).
Proof.
  revert i k. induction shown as [|c t IH]; intros i [|k]; simpl; try discriminate.
  - intros [= <-]. simpl. now rewrite Z.add_0_r.
  - intros H. apply IH in H.
    replace (i + Z.pos (Pos.of_succ_nat k)) with (i + 1 + Z.of_nat k) by lia.
    exact H.
Qed.

(** For a limit that is not negative the chunker returns at least one chunk. *)
Lemma chunks_nonempty (text : str) (max_length : Z) (chunks : list str) :
  0 <= max_length ->
  split_text_into_chunks text max_length = Some chunks -> chunks <> [].
Proof.
  intros H. unfold split_text_into_chunks, split_text_into_chunks_fuel.
  destruct (len text <=? max_length) eqn:L; [intros [= <-]; discriminate|].
  destruct text as [|c t]; [|].
  - apply Z.leb_gt in L. unfold len in L. simpl in L. lia.
  - change (length (c :: t)) with (S (length t)).
    apply Z.leb_gt in L. rewrite split_loop_pass by (assumption || discriminate).
    rewrite split_loop_acc. destruct (split_loop _ _ _ []); [|discriminate].
    simpl. intros [= <-]. discriminate.
Qed.

(** The handler once both durations are parsed. *)
Lemma tldr_command_parsed (w : World) (start end_ : str) (focus : option str)
  (start_delta end_delta : timedelta) :
  parse_time_ago start = Return start_delta ->
  parse_time_ago end_ = Return end_delta ->
  tldr_command w start end_ focus
  = if gtb start_delta (mk_timedelta config.MAX_TIME_RANGE_DAYS 0 0)
    then ([Defer; SendContent range_too_wide_message], Return tt)
    else if geb end_delta start_delta
    then ([Defer; SendContent inverted_range_message], Return tt)
    else bind (emit Defer)
           (fun _ => try_except (summarize w start_delta end_delta start end_ focus)
                       (on_exception w)).
Proof.
  intros Hs He. unfold tldr_command, parse_range.
  rewrite Hs, He.
  change (timedelta_new config.MAX_TIME_RANGE_DAYS 0 0)
    with (Return (mk_timedelta config.MAX_TIME_RANGE_DAYS 0 0)).
  cbn [bind lift ret try_except emit app].
  destruct (gtb start_delta _); [reflexivity|].
  destruct (geb end_delta start_delta); [reflexivity|].
  now destruct (summarize w start_delta end_delta start end_ focus).
Qed.

(** An accepted range is fetched exactly once, however the run ends. *)
Lemma accepted_range_fetches_once (w : World) (start_delta end_delta : timedelta)
  (start end_ : str) (focus : option str) :
  fetches (bind (emit Defer)
             (fun _ => try_except (summarize w start_delta end_delta start end_ focus)
                         (on_exception w)))
  = [FetchHistory config.MAX_MESSAGES
       (now w - total_microseconds start_delta)
       (now w - total_microseconds end_delta)].
Proof.
  unfold summarize, deliver, send_summary, on_exception, fetches.
  destruct (history w _ _ _) as [fetched|e1]; io_step.
  - destruct (filter qualifies fetched) as [|m kept]; io_step; [reflexivity|].
    destruct (channel_name w) as [name|e2]; io_step.
    + set (prompt := config.SUMMARY_PROMPT_format _ _).
      destruct (generate w prompt) as [[|c text]|e3]; io_step.
      * reflexivity.
      * destruct (split_text_into_chunks _ _); io_step; reflexivity.
      * destruct e3; reflexivity.
    + destruct e2; reflexivity.
  - destruct e1; reflexivity.
Qed.

(** * The claims of the specification *)

(** ** The text chunker *)

(** C1. For every text and every positive limit, [split_text_into_chunks]
    returns, and every chunk it returns has length at most the limit.  When
    the text is longer than the limit and no newline is eligible as a split
    point (none at an index above half the limit and below the limit), the
    first chunk is the text cut at exactly the limit, right-stripped. *)
Theorem chunks_within_limit (text : str) (max_length : Z) :
  0 < max_length ->
  exists chunks,
    split_text_into_chunks text max_length = Some chunks
    /\ Forall (fun c => len c <= max_length) chunks
    /\ (max_length < len text ->
        (forall i, max_length / 2 < i < max_length ->
                   char_at text i <> Some NEWLINE) ->
        exists rest, chunks = rstrip (slice_to text max_length) :: rest).
Proof.
  intros H.
  destruct (split_text_into_chunks_total text max_length H) as [chunks E].
  exists chunks. split; [exact E|].
  split; [now apply (split_text_into_chunks_within text)|].
  unfold split_text_into_chunks, split_text_into_chunks_fuel in E.
  intros L Hno. destruct (len text <=? max_length) eqn:L'; [lia|].
  pose proof (longer_nonempty text max_length H L) as Hne.
  destruct text as [|c t]; [congruence|].
  change (length (c :: t)) with (S (length t)) in E.
  rewrite split_loop_pass in E by assumption.
  rewrite (split_point_no_newline _ _ H L Hno) in E.
  rewrite split_loop_acc in E. simpl app in E.
  destruct (split_loop _ _ _ []) as [rest|]; [|discriminate].
  injection E as <-. now exists rest.
Qed.

Lemma chunks_within_limit_witness :
  0 < 4
  /\ exists chunks rest,
       split_text_into_chunks (lit "abcdefghij") 4 = Some chunks
       /\ Forall (fun c => len c <= 4) chunks
       /\ chunks = lit "abcd" :: rest.
Proof.
  split; [lia|].
  destruct (chunks_within_limit (lit "abcdefghij") 4 ltac:(lia))
    as (chunks & E & Hall & Hcut).
  destruct Hcut as [rest Hrest].
  - vm_compute. reflexivity.
  - intros i Hi. assert (i = 3) as -> by (change (4 / 2) with 2 in Hi; lia).
    discriminate.
  - exists chunks, rest. repeat split; assumption.
Defined.

(** C5, counterexample: with limit 4 and the only newline at index 2, exactly
    half of the limit, the loop cuts at 4 and not after the newline. *)
Lemma split_at_exact_half_counterexample :
  ~ spec_splits_from_half 4 (lit "ab" ++ [NEWLINE] ++ lit "cdefg").
Proof.
  intros H.
  specialize (H 2 ltac:(lia) eq_refl).
  assert (Hafter : forall i, 2 < i <= 4 ->
            char_at (lit "ab" ++ [NEWLINE] ++ lit "cdefg") i <> Some NEWLINE).
  { intros i Hi. assert (i = 3 \/ i = 4) as [-> | ->] by lia; discriminate. }
  specialize (H Hafter ltac:(lia) 5%nat []).
  vm_compute in H. discriminate H.
Qed.

(** C5, amended. On a remaining text longer than the (positive) limit, a
    pass of the loop looks for the last newline at an index below the limit.
    When its index is strictly greater than half of the limit (floor
    division), the pass cuts just after it, the newline being the last
    character of the cut; otherwise it cuts at exactly the limit.  Either way
    it emits the cut right-stripped and goes on with the rest left-stripped. *)
Theorem split_pass_policy (fuel : nat) (max_length : Z) (remaining : str)
  (chunks : list str) :
  0 < max_length -> max_length < len remaining ->
  (forall p,
      max_length / 2 < p < max_length ->
      char_at remaining p = Some NEWLINE ->
      (forall i, p < i < max_length -> char_at remaining i <> Some NEWLINE) ->
      split_loop (S fuel) max_length remaining chunks
      = split_loop fuel max_length
          (lstrip (slice_from remaining (p + 1)))
          (chunks ++ [rstrip (slice_to remaining (p + 1))])
      /\ slice_to remaining (p + 1) = slice_to remaining p ++ [NEWLINE])
  /\ ((forall i, max_length / 2 < i < max_length ->
                 char_at remaining i <> Some NEWLINE) ->
      split_loop (S fuel) max_length remaining chunks
      = split_loop fuel max_length
          (lstrip (slice_from remaining max_length))
          (chunks ++ [rstrip (slice_to remaining max_length)])).
Proof.
  intros H L. pose proof (longer_nonempty remaining max_length H L) as Hne.
  assert (0 <= max_length / 2) by (apply Z.div_pos; lia).
  split.
  - intros p Hp Hat Hafter. split.
    + rewrite split_loop_pass by assumption.
      now rewrite (split_point_newline remaining max_length p).
    + apply slice_to_snoc; [lia|exact Hat].
  - intros Hno. rewrite split_loop_pass by assumption.
    now rewrite split_point_no_newline.
Qed.

Lemma split_pass_policy_witness :
  let remaining := lit "abc" ++ [NEWLINE] ++ lit "defgh" in
  (0 < 4 /\ 4 < len remaining)
  /\ split_loop 3 4 remaining []
     = split_loop 2 4 (lstrip (slice_from remaining (3 + 1)))
         ([] ++ [rstrip (slice_to remaining (3 + 1))]).
Proof.
  intros remaining. split; [split; [lia|vm_compute; reflexivity]|].
  destruct (split_pass_policy 2 4 remaining []) as [Hnewline _].
  - lia.
  - vm_compute. reflexivity.
  - apply (Hnewline 3).
    + change (4 / 2) with 2. lia.
    + reflexivity.
    + intros i Hi. lia.
Defined.

(** C7. A text no longer than the limit comes back as the single chunk
    [[text]], unchanged, whatever the fuel; the empty text gives one empty
    chunk; and splitting again a chunk that was returned alone returns it
    alone. *)
Theorem short_text_single_chunk (text : str) (max_length : Z) :
  len text <= max_length ->
  split_text_into_chunks text max_length = Some [text]
  /\ (forall fuel, split_text_into_chunks_fuel fuel text max_length = Some [text])
  /\ split_text_into_chunks [] max_length = Some [[]]
  /\ (forall longer chunk,
        0 < max_length ->
        split_text_into_chunks longer max_length = Some [chunk] ->
        split_text_into_chunks chunk max_length = Some [chunk]).
Proof.
  intros H.
  assert (Hfuel : forall fuel t, len t <= max_length ->
            split_text_into_chunks_fuel fuel t max_length = Some [t]).
  { intros fuel t Ht. unfold split_text_into_chunks_fuel.
    apply Z.leb_le in Ht. now rewrite Ht. }
  split; [now apply Hfuel|]. split; [intros fuel; now apply Hfuel|].
  split.
  - apply Hfuel. pose proof (len_nonneg text). unfold len in *. simpl. lia.
  - intros longer chunk Hpos E. apply Hfuel.
    pose proof (split_text_into_chunks_within longer max_length _ Hpos E) as Hall.
    now inversion Hall.
Qed.

Lemma short_text_single_chunk_witness :
  len (lit "hello") <= 10
  /\ split_text_into_chunks (lit "hello") 10 = Some [lit "hello"]
  /\ (forall fuel, split_text_into_chunks_fuel fuel (lit "hello") 10 = Some [lit "hello"])
  /\ split_text_into_chunks [] 10 = Some [[]]
  /\ (forall longer chunk,
        0 < 10 ->
        split_text_into_chunks longer 10 = Some [chunk] ->
        split_text_into_chunks chunk 10 = Some [chunk]).
Proof.
  assert (H : len (lit "hello") <= 10) by (vm_compute; discriminate).
  split; [exact H|]. apply (short_text_single_chunk (lit "hello") 10 H).
Defined.

(** C8. For every text and every positive limit the loop ends: a remaining
    text that fits the limit is emitted as the final chunk, and the whole run
    takes at most [len text / (max_length // 2 + 1) + 1] passes of the loop,
    which is at most [2 * len text / max_length + 1]. *)
Theorem split_terminates (text : str) (max_length : Z) :
  0 < max_length ->
  let steps := Z.to_nat (len text / (max_length / 2 + 1) + 1) in
  exists chunks,
    split_text_into_chunks_fuel steps text max_length = Some chunks
    /\ (forall fuel, (steps <= fuel)%nat ->
                     split_text_into_chunks_fuel fuel text max_length = Some chunks)
    /\ split_text_into_chunks text max_length = Some chunks
    /\ Z.of_nat steps <= 2 * len text / max_length + 1
    /\ (forall fuel remaining acc,
          remaining <> [] -> len remaining <= max_length ->
          split_loop (S fuel) max_length remaining acc = Some (acc ++ [remaining])).
Proof.
  intros H steps.
  assert (Hh : 0 <= max_length / 2) by (apply Z.div_pos; lia).
  assert (Hq : 0 <= len text / (max_length / 2 + 1))
    by (apply Z.div_pos; [apply len_nonneg|lia]).
  assert (Hrun : exists chunks,
             split_text_into_chunks_fuel steps text max_length = Some chunks).
  { unfold split_text_into_chunks_fuel.
    destruct (len text <=? max_length); [now eexists|].
    apply split_loop_steps; [exact H|]. unfold steps. lia. }
  destruct Hrun as [chunks E]. exists chunks.
  assert (Hmono : forall fuel, (steps <= fuel)%nat ->
            split_text_into_chunks_fuel fuel text max_length = Some chunks).
  { intros fuel Hle. unfold split_text_into_chunks_fuel in *.
    destruct (len text <=? max_length); [exact E|].
    eapply split_loop_mono; [exact Hle|exact E]. }
  split; [exact E|]. split; [exact Hmono|]. split; [|split].
  - destruct (split_text_into_chunks_total text max_length H) as [chunks' E'].
    assert (X : split_text_into_chunks_fuel (Nat.max steps (length text)) text max_length
                = Some chunks').
    { unfold split_text_into_chunks, split_text_into_chunks_fuel in *.
      destruct (len text <=? max_length); [exact E'|].
      eapply split_loop_mono; [|exact E']. lia. }
    rewrite Hmono in X by lia. injection X as ->. exact E'.
  - unfold steps. rewrite Z2Nat.id by lia.
    assert (len text / (max_length / 2 + 1) <= 2 * len text / max_length); [|lia].
    rewrite <- (Z.div_mul_cancel_l (len text) (max_length / 2 + 1) 2) by lia.
    apply Z.div_le_compat_l; [pose proof (len_nonneg text); lia|].
    split; [exact H|].
    pose proof (Z.div_mod max_length 2 ltac:(lia)).
    pose proof (Z.mod_pos_bound max_length 2 ltac:(lia)). lia.
  - intros fuel remaining acc. apply split_loop_final.
Qed.

Lemma split_terminates_witness :
  let steps := Z.to_nat (len (lit "abcdefghij") / (4 / 2 + 1) + 1) in
  0 < 4 /\
  exists chunks,
    split_text_into_chunks_fuel steps (lit "abcdefghij") 4 = Some chunks
    /\ (forall fuel, (steps <= fuel)%nat ->
                     split_text_into_chunks_fuel fuel (lit "abcdefghij") 4 = Some chunks)
    /\ split_text_into_chunks (lit "abcdefghij") 4 = Some chunks
    /\ Z.of_nat steps <= 2 * len (lit "abcdefghij") / 4 + 1
    /\ (forall fuel remaining acc,
          remaining <> [] -> len remaining <= 4 ->
          split_loop (S fuel) 4 remaining acc = Some (acc ++ [remaining])).
Proof. split; [lia|]. apply (split_terminates (lit "abcdefghij") 4). lia. Defined.

(** C9, counterexample: a text of 9000 characters with a newline as every
    80th character does not fit two chunks of 4096. *)
Lemma scenario_two_chunks_counterexample :
  len scenario_text = 9000
  /\ newline_every_80 scenario_text = true
  /\ ~ spec_two_chunks scenario_text.
Proof.
  split; [reflexivity|]. split; [vm_compute; reflexivity|].
  intros (first & second & E).
  assert (R : option_map (@length str)
                (split_text_into_chunks scenario_text EMBED_DESC_LIMIT) = Some 3%nat)
    by (vm_compute; reflexivity).
  rewrite E in R. discriminate R.
Qed.

(** C9, amended. For a text of 9000 characters with a newline as every 80th
    character and no other whitespace, and the limit 4096, the run gives
    exactly three chunks: characters 0-4078, 4080-8158 and 8160-8999.  Each of
    the first two is cut just after the last newline below the limit, at
    index 4079 of the text it is cut from, past the halfway point 2048, and
    ends before that newline; the lengths are 4079, 4079 and 840. *)
Theorem scenario_three_chunks (text : str) :
  len text = 9000 -> newline_every_80 text = true ->
  split_text_into_chunks text EMBED_DESC_LIMIT
  = Some [slice_to text 4079;
          slice_to (slice_from text 4080) 4079;
          slice_from text 8160]
  /\ len (slice_to text 4079) = 4079
  /\ len (slice_to (slice_from text 4080) 4079) = 4079
  /\ len (slice_from text 8160) = 840
  /\ char_at text 4079 = Some NEWLINE
  /\ char_at text 8159 = Some NEWLINE
  /\ EMBED_DESC_LIMIT / 2 < 4079 < EMBED_DESC_LIMIT.
Proof.
  intros L P.
  assert (L2 : len (slice_from text 4080) = 4920)
    by (rewrite slice_from_len; lia).
  assert (P2 : newline_every_80 (slice_from text 4080) = true).
  { unfold newline_every_80 in *. rewrite slice_from_skipn by lia.
    rewrite (newline_every_80_shift _ 0 (0 + Z.of_nat (Z.to_nat 4080))) by reflexivity.
    now apply newline_every_80_skipn. }
  assert (E3 : slice_from (slice_from text 4080) 4080 = slice_from text 8160)
    by (rewrite !slice_from_skipn by lia; rewrite skipn_skipn; f_equal; lia).
  assert (L3 : len (slice_from text 8160) = 840)
    by (rewrite slice_from_len; lia).
  assert (Hnl : forall i, 0 <= i < 9000 -> (i + 1) mod 80 = 0 ->
            char_at text i = Some NEWLINE).
  { intros i Hi M. rewrite <- (Z2Nat.id i) by lia. rewrite char_at_nat.
    destruct (nth_error text (Z.to_nat i)) as [c|] eqn:E.
    - pose proof (newline_every_80_nth text 0 _ c P E) as Hc.
      rewrite Z2Nat.id, Z.add_0_l, M in Hc by lia. now rewrite Hc.
    - apply nth_error_None in E. unfold len in L. lia. }
  split; [|repeat split].
  - unfold split_text_into_chunks, split_text_into_chunks_fuel, EMBED_DESC_LIMIT.
    destruct (Z.leb_spec (len text) 4096); [lia|].
    apply (split_loop_mono 3); [unfold len in L; lia|].
    rewrite !slice_to_firstn, !slice_from_skipn in * by lia.
    change (Z.to_nat 4079) with 4079%nat in *.
    change (Z.to_nat 4080) with 4080%nat in *.
    rewrite scenario_pass by (assumption || lia).
    rewrite scenario_pass by (assumption || lia).
    rewrite E3. rewrite split_loop_final; [reflexivity| |lia].
    intros E. rewrite E in L3. discriminate L3.
  - rewrite slice_to_len; lia.
  - rewrite slice_to_len; lia.
  - exact L3.
  - apply Hnl; [lia|reflexivity].
  - apply Hnl; [lia|reflexivity].
Qed.

Lemma scenario_three_chunks_witness :
  (len scenario_text = 9000 /\ newline_every_80 scenario_text = true)
  /\ split_text_into_chunks scenario_text EMBED_DESC_LIMIT
     = Some [slice_to scenario_text 4079;
             slice_to (slice_from scenario_text 4080) 4079;
             slice_from scenario_text 8160].
Proof.
  split; [split; vm_compute; reflexivity|].
  apply (scenario_three_chunks scenario_text); vm_compute; reflexivity.
Defined.

(** ** The time-range parser *)

(** C3, counterexample: ["1000000000d"] is in the format, and
    [timedelta(days=1000000000)] raises [OverflowError]. *)
Lemma parse_beyond_timedelta_counterexample :
  ~ spec_parse_accepts (lit "1000000000d").
Proof.
  intros H. destruct (H eq_refl) as (td & E & _).
  vm_compute in E. discriminate E.
Qed.

(** C3, amended. For every string in the format [^\d+[mMhHdD]$] whose numeric
    prefix has at most 4300 digits and, in its unit, stays below 1000000000
    days, [parse_time_ago] returns a duration whose magnitude is the numeric
    prefix in that unit: minutes for [m]/[M], hours for [h]/[H], days for
    [d]/[D]. *)
Theorem parse_time_ago_accepts (s : str) :
  spec_time_format s = true ->
  len (numeric_prefix s) <= MAX_STR_DIGITS ->
  digits_value 0 (numeric_prefix s) * unit_seconds (unit_of s)
  < (MAX_DELTA_DAYS + 1) * 86400 ->
  exists td,
    parse_time_ago s = Return td
    /\ microseconds td = 0
    /\ (In (unit_of s) [109; 77]%N ->
        total_seconds td = digits_value 0 (numeric_prefix s) * 60)
    /\ (In (unit_of s) [104; 72]%N ->
        total_seconds td = digits_value 0 (numeric_prefix s) * 3600)
    /\ (In (unit_of s) [100; 68]%N ->
        total_seconds td = digits_value 0 (numeric_prefix s) * 86400).
Proof.
  intros F. apply spec_time_format_iff in F as (digits & u & -> & Hne & Hall & Hu).
  unfold numeric_prefix, unit_of. rewrite removelast_last, last_last.
  intros Hlen Hrange.
  rewrite (parse_time_ago_format _ digits u (strip_format digits u Hne Hall Hu) Hne Hall Hu).
  destruct (MAX_STR_DIGITS <? len digits) eqn:L; [lia|].
  set (total := digits_value 0 digits * unit_seconds u) in *.
  assert (Htot : total / 86400 < MAX_DELTA_DAYS + 1)
    by (apply Z.div_lt_upper_bound; lia).
  unfold duration_of_seconds.
  destruct (MAX_DELTA_DAYS <? total / 86400) eqn:O; [lia|].
  eexists. split; [reflexivity|]. split; [reflexivity|].
  assert (Hsec : total_seconds (mk_timedelta (total / 86400) (total mod 86400) 0) = total).
  { unfold total_seconds. simpl. pose proof (Z.div_mod total 86400 ltac:(lia)). lia. }
  rewrite Hsec. unfold total.
  repeat split; intros Hin; simpl in Hin;
    repeat (destruct Hin as [<-|Hin]; [reflexivity|]); contradiction Hin.
Qed.

Lemma parse_time_ago_accepts_witness :
  spec_time_format (lit "90M") = true
  /\ exists td,
       parse_time_ago (lit "90M") = Return td
       /\ microseconds td = 0
       /\ (In (unit_of (lit "90M")) [109; 77]%N ->
           total_seconds td = digits_value 0 (numeric_prefix (lit "90M")) * 60)
       /\ (In (unit_of (lit "90M")) [104; 72]%N ->
           total_seconds td = digits_value 0 (numeric_prefix (lit "90M")) * 3600)
       /\ (In (unit_of (lit "90M")) [100; 68]%N ->
           total_seconds td = digits_value 0 (numeric_prefix (lit "90M")) * 86400).
Proof.
  split; [reflexivity|].
  apply (parse_time_ago_accepts (lit "90M")).
  - reflexivity.
  - vm_compute. discriminate.
  - vm_compute. reflexivity.
Defined.

(** C4, counterexample: [" 1h "] has surrounding whitespace, so it is outside
    the format, and it parses to one hour. *)
Lemma parse_padded_counterexample : ~ spec_parse_rejects (lit " 1h ").
Proof. intros H. specialize (H eq_refl). vm_compute in H. discriminate H. Qed.

(** C4, amended. Every string that is outside the format [^\d+[mMhHdD]$]
    once its leading and trailing whitespace is removed (a sign, a missing
    unit, extra characters inside) is refused with the invalid-format error,
    whose message quotes the string as given.  Every string that is in the
    format once stripped passes the format check: it raises no
    [TimeParseError] and parses exactly as its stripped form, to the duration
    of its numeric prefix in its unit where [int] and [timedelta] hold it.
    So surrounding whitespace alone is accepted: a string of the format
    between two runs of whitespace parses as the string of the format. *)
Theorem parse_time_ago_rejects (s : str) :
  (spec_time_format (strip s) = false ->
   parse_time_ago s = Raise (TimeParseError (invalid_format_message s)))
  /\ (spec_time_format (strip s) = true ->
      (forall msg, parse_time_ago s <> Raise (TimeParseError msg))
      /\ parse_time_ago s = parse_time_ago (strip s)
      /\ parse_time_ago s
         = if MAX_STR_DIGITS <? len (numeric_prefix (strip s))
           then Raise ValueError
           else duration_of_seconds
                  (digits_value 0 (numeric_prefix (strip s))
                   * unit_seconds (unit_of (strip s))))
  /\ (forall ws1 core ws2,
        s = ws1 ++ core ++ ws2 ->
        forallb is_space ws1 = true -> forallb is_space ws2 = true ->
        spec_time_format core = true ->
        strip s = core /\ parse_time_ago s = parse_time_ago core).
Proof.
  split; [|split].
  - intros F. unfold parse_time_ago.
    destruct (TIME_PATTERN_match (strip s)) as [g|] eqn:M; [|reflexivity].
    assert (T : spec_time_format (strip s) = true)
      by (apply TIME_PATTERN_match_strip; now exists g).
    congruence.
  - intros F. pose proof F as F'.
    apply spec_time_format_iff in F' as (digits & u & E & Hne & Hall & Hu).
    pose proof (parse_time_ago_format s digits u E Hne Hall Hu) as P.
    assert (Es : strip (strip s) = strip s)
      by (rewrite E; now apply strip_format).
    split; [|split].
    + intros msg. rewrite P. unfold duration_of_seconds.
      destruct (_ <? len digits); [discriminate|]. destruct (_ <? _); discriminate.
    + apply parse_time_ago_of_strip; [now rewrite Es|exact F].
    + rewrite P, E. unfold numeric_prefix, unit_of.
      now rewrite removelast_last, last_last.
  - intros ws1 core ws2 -> H1 H2 F.
    pose proof (strip_padded_format ws1 core ws2 H1 H2 F) as E.
    split; [exact E|].
    pose proof (strip_padded_format [] core [] eq_refl eq_refl F) as E'.
    simpl in E'. rewrite app_nil_r in E'.
    apply parse_time_ago_of_strip; [congruence|now rewrite E].
Qed.

Lemma parse_time_ago_rejects_witness :
  (spec_time_format (strip (lit "-1h")) = false
   /\ parse_time_ago (lit "-1h")
      = Raise (TimeParseError (invalid_format_message (lit "-1h"))))
  /\ (spec_time_format (strip (lit " 1h ")) = true
      /\ parse_time_ago (lit " 1h ") = Return (mk_timedelta 0 3600 0)).
Proof.
  split.
  - split; [reflexivity|].
    destruct (parse_time_ago_rejects (lit "-1h")) as [H _]. apply H. reflexivity.
  - split; [reflexivity|].
    destruct (parse_time_ago_rejects (lit " 1h ")) as (_ & H & _).
    destruct (H eq_refl) as (_ & _ & E). rewrite E. reflexivity.
Defined.

(** C10, counterexample: the pattern matches ["1000000000d"] and the parser
    raises [OverflowError] after the format check. *)
Lemma raise_after_match_counterexample :
  ~ spec_returns_after_match (lit "1000000000d").
Proof.
  intros H. destruct (H _ eq_refl) as [td E].
  vm_compute in E. discriminate E.
Qed.

(** C10, amended. Once the time pattern has matched, the two defensive
    branches are unreachable: the digit group converts to no negative
    integer, the lowered unit group is one of [m], [h], [d], and the parser
    raises no [TimeParseError].  It returns the duration of the digit group
    in its unit whenever the group has at most 4300 digits and stays below
    1000000000 days; with more than 4300 digits [int] raises [ValueError],
    and from 1000000000 days on [timedelta] raises [OverflowError]. *)
Theorem defensive_branches_unreachable (s g1 g2 : str) :
  TIME_PATTERN_match (strip s) = Some (g1, g2) ->
  let total := digits_value 0 g1 * unit_seconds (unit_of g2) in
  (forall value, int g1 = Return value -> 0 <= value)
  /\ In (map lower g2) [lit "m"; lit "h"; lit "d"]
  /\ (forall msg, parse_time_ago s <> Raise (TimeParseError msg))
  /\ (MAX_STR_DIGITS < len g1 -> parse_time_ago s = Raise ValueError)
  /\ (len g1 <= MAX_STR_DIGITS ->
      (MAX_DELTA_DAYS + 1) * 86400 <= total ->
      parse_time_ago s = Raise OverflowError)
  /\ (len g1 <= MAX_STR_DIGITS ->
      total < (MAX_DELTA_DAYS + 1) * 86400 ->
      parse_time_ago s
      = Return (mk_timedelta (total / 86400) (total mod 86400) 0)).
Proof.
  intros M total.
  apply TIME_PATTERN_match_strip_inv in M as (u & -> & E & Hne & Hall & Hu).
  rewrite (parse_time_ago_format s g1 u E Hne Hall Hu).
  unfold unit_of in total. simpl last in total.
  split; [|split; [|split; [|split; [|split]]]].
  - intros value. unfold int. destruct (_ <? _); [discriminate|].
    intros [= <-]. apply digits_value_nonneg. lia.
  - apply is_unit_letter_In in Hu. simpl in Hu.
    repeat (destruct Hu as [<-|Hu]; [vm_compute; tauto|]). contradiction Hu.
  - intros msg. unfold duration_of_seconds.
    destruct (_ <? len g1); [discriminate|]. destruct (_ <? _); discriminate.
  - intros Hlen. destruct (Z.ltb_spec MAX_STR_DIGITS (len g1)); [reflexivity|lia].
  - intros Hlen Hrange. destruct (Z.ltb_spec MAX_STR_DIGITS (len g1)); [lia|].
    unfold duration_of_seconds. fold total.
    assert (MAX_DELTA_DAYS + 1 <= total / 86400)
      by (apply Z.div_le_lower_bound; lia).
    destruct (Z.ltb_spec MAX_DELTA_DAYS (total / 86400)); [reflexivity|lia].
  - intros Hlen Hrange. destruct (Z.ltb_spec MAX_STR_DIGITS (len g1)); [lia|].
    unfold duration_of_seconds. fold total.
    assert (total / 86400 < MAX_DELTA_DAYS + 1)
      by (apply Z.div_lt_upper_bound; lia).
    destruct (Z.ltb_spec MAX_DELTA_DAYS (total / 86400)); [lia|reflexivity].
Qed.

Lemma defensive_branches_unreachable_witness :
  (TIME_PATTERN_match (strip (lit " 2d ")) = Some (lit "2", lit "d")
   /\ parse_time_ago (lit " 2d ") = Return (mk_timedelta 2 0 0))
  /\ (TIME_PATTERN_match (strip (lit "1000000000d")) = Some (lit "1000000000", lit "d")
      /\ parse_time_ago (lit "1000000000d") = Raise OverflowError).
Proof.
  split; (split; [reflexivity|]).
  - destruct (defensive_branches_unreachable (lit " 2d ") (lit "2") (lit "d") eq_refl)
      as (_ & _ & _ & _ & _ & H).
    rewrite H; [reflexivity|vm_compute; discriminate|reflexivity].
  - destruct (defensive_branches_unreachable (lit "1000000000d")
                (lit "1000000000") (lit "d") eq_refl)
      as (_ & _ & _ & _ & H & _).
    apply H; vm_compute; discriminate.
Defined.

(** ** The handler *)

Example scenario_accepted_range :
  exists prompt log1 log2,
    tldr_command example_world (lit "2h") (lit "1h") None
    = ([ Defer;
         FetchHistory 10000 0 3600000000;
         LogInfo log1;
         Generate prompt;
         SendEmbeds
           [ mk_Embed (lit "- build fixed" ++ [NEWLINE] ++ lit "- ship on friday")
               (Some TITLE)
               (Some (lit "Summarized 3 messages " ++ [BULLET] ++ lit " 2h "
                      ++ [ARROW] ++ lit " 1h")) ];
         LogInfo log2 ],
       Return tt).
Proof. do 3 eexists. vm_compute. reflexivity. Qed.

Example scenario_inverted_range :
  tldr_command example_world (lit "1h") (lit "2h") None
  = ([Defer; SendContent inverted_range_message], Return tt).
Proof. vm_compute. reflexivity. Qed.

Example scenario_range_too_wide :
  tldr_command example_world (lit "10d") (lit "0m") None
  = ([Defer; SendContent range_too_wide_message], Return tt).
Proof. vm_compute. reflexivity. Qed.

Example scenario_overflow :
  tldr_command example_world (lit "1000000000d") (lit "0m") None
  = ([Defer; LogException (lit "Error generating summary: error");
      SendContent (unexpected_message (lit "error"))], Return tt).
Proof. vm_compute. reflexivity. Qed.

(** C2. With both durations parsed, the handler first rejects a start
    duration strictly greater than the configured maximum (3 days) with the
    range-too-wide reply, and then an end duration greater than or equal to
    the start duration with the inverted-range reply; in both cases the run
    is the acknowledgement and that reply, with no fetch from the gateway.
    (A range that passes both checks is fetched once.) *)
Theorem range_rejected_before_fetch (w : World) (start end_ : str)
  (focus : option str) (start_delta end_delta : timedelta) :
  parse_time_ago start = Return start_delta ->
  parse_time_ago end_ = Return end_delta ->
  let run := tldr_command w start end_ focus in
  let max_seconds := config.MAX_TIME_RANGE_DAYS * 86400 in
  (max_seconds < total_seconds start_delta ->
   run = ([Defer; SendContent range_too_wide_message], Return tt))
  /\ (total_seconds start_delta <= max_seconds ->
      total_seconds start_delta <= total_seconds end_delta ->
      run = ([Defer; SendContent inverted_range_message], Return tt))
  /\ (max_seconds < total_seconds start_delta
      \/ total_seconds start_delta <= total_seconds end_delta ->
      fetches run = [])
  /\ (total_seconds end_delta < total_seconds start_delta <= max_seconds ->
      fetches run
      = [FetchHistory config.MAX_MESSAGES
           (now w - total_microseconds start_delta)
           (now w - total_microseconds end_delta)]).
Proof.
  intros Hs He run max_seconds.
  destruct (parse_time_ago_normalized _ _ Hs) as [Ns Us].
  destruct (parse_time_ago_normalized _ _ He) as [Ne Ue].
  assert (Nm : normalized (mk_timedelta config.MAX_TIME_RANGE_DAYS 0 0))
    by (unfold normalized; simpl; lia).
  pose proof (tldr_command_parsed w start end_ focus _ _ Hs He) as R.
  fold run in R.
  rewrite (gtb_seconds _ _ Ns Nm Us eq_refl) in R.
  rewrite (geb_seconds _ _ Ne Ns Ue Us) in R.
  change (total_seconds (mk_timedelta config.MAX_TIME_RANGE_DAYS 0 0))
    with max_seconds in R.
  destruct (Z.ltb_spec max_seconds (total_seconds start_delta)) as [Hwide|Hfits].
  - rewrite R. repeat split; try reflexivity; intros; lia.
  - destruct (Z.leb_spec (total_seconds start_delta) (total_seconds end_delta))
      as [Hinv|Hok].
    + rewrite R. repeat split; try reflexivity; intros; lia.
    + rewrite R. repeat split; try (intros; lia).
      intros _. apply accepted_range_fetches_once.
Qed.

Lemma range_rejected_before_fetch_witness :
  (parse_time_ago (lit "1h") = Return (mk_timedelta 0 3600 0)
   /\ parse_time_ago (lit "2h") = Return (mk_timedelta 0 7200 0))
  /\ tldr_command example_world (lit "1h") (lit "2h") None
     = ([Defer; SendContent inverted_range_message], Return tt).
Proof.
  split; [split; reflexivity|].
  apply (range_rejected_before_fetch example_world (lit "1h") (lit "2h") None
           (mk_timedelta 0 3600 0) (mk_timedelta 0 7200 0));
    [reflexivity|reflexivity|vm_compute; discriminate|vm_compute; discriminate].
Defined.

(** C6. For a non-empty summary the reply carries one block per chunk, at
    most [MAX_EMBEDS_PER_MESSAGE] of them (the chunks beyond are dropped);
    block 0, and no other, carries the fixed title; the last included block,
    of index [min(cap, chunk count) - 1], and no other, carries the footer.
    The footer gives the count of summarised messages and the two range
    strings as given and, when a focus was given (not empty), its first 50
    characters, followed by an ellipsis when it is longer. *)
Theorem reply_plan_blocks (w : World) (messages : list Message)
  (summary start end_ : str) (focus : option str) :
  summary <> [] ->
  let line := footer_text (Z.of_nat (length messages)) start end_ focus in
  let base :=
    lit "Summarized " ++ str_of_int (Z.of_nat (length messages))
    ++ lit " messages " ++ [BULLET] ++ lit " " ++ start ++ lit " "
    ++ [ARROW] ++ lit " " ++ end_ in
  exists chunks,
    split_text_into_chunks summary EMBED_DESC_LIMIT = Some chunks
    /\ let embeds := make_embeds chunks line in
       let last := (Nat.min 10 (length chunks) - 1)%nat in
       (exists rest outcome,
           deliver w messages summary start end_ focus
           = (SendEmbeds embeds :: rest, outcome))
       /\ length embeds = Nat.min 10 (length chunks)
       /\ (1 <= length embeds <= 10)%nat
       /\ map description embeds = firstn 10 chunks
       /\ (forall i e, nth_error embeds i = Some e ->
             title e = (if Nat.eqb i 0 then Some TITLE else None)
             /\ footer e = (if Nat.eqb i last then Some line else None))
       /\ (focus = None \/ focus = Some [] -> line = base)
       /\ (forall f, focus = Some f -> f <> [] ->
             line = base ++ lit " " ++ [BULLET] ++ lit " Focus: " ++ firstn 50 f
                    ++ (if 50 <? len f then lit "..." else [])).
Proof.
  intros Hne line base.
  destruct (split_text_into_chunks_total summary EMBED_DESC_LIMIT ltac:(reflexivity))
    as [chunks E].
  exists chunks. split; [exact E|].
  pose proof (chunks_nonempty summary EMBED_DESC_LIMIT chunks
                ltac:(unfold EMBED_DESC_LIMIT; lia) E) as Hchunks.
  intros embeds last.
  assert (Hlen : length embeds = Nat.min 10 (length chunks)).
  { unfold embeds, make_embeds. rewrite embeds_from_length.
    change (Z.to_nat MAX_EMBEDS_PER_MESSAGE) with 10%nat. apply length_firstn. }
  assert (Hpos : (1 <= length chunks)%nat)
    by (destruct chunks; [congruence|simpl; lia]).
  split; [|split; [exact Hlen|split; [lia|split; [|split; [|split]]]]].
  - unfold deliver. destruct summary as [|c t]; [congruence|].
    unfold send_summary. rewrite E. fold line. fold embeds. io_step.
    destruct (channel_name w); io_step; now do 2 eexists.
  - unfold embeds, make_embeds. now rewrite embeds_from_description.
  - intros i e Hi.
    assert (Hi' : (i < length embeds)%nat)
      by (apply nth_error_Some; congruence).
    unfold embeds, make_embeds in Hi. apply embeds_from_nth in Hi as [Ht Hf].
    rewrite Ht, Hf. unfold last, MAX_EMBEDS_PER_MESSAGE. split.
    + destruct (Z.eqb_spec (0 + Z.of_nat i) 0), (Nat.eqb_spec i 0);
        try reflexivity; lia.
    + destruct (Z.eqb_spec (0 + Z.of_nat i) (Z.of_nat (length chunks) - 1)),
        (Z.eqb_spec (0 + Z.of_nat i) (10 - 1)),
        (Nat.eqb_spec i (Nat.min 10 (length chunks) - 1));
        try reflexivity; lia.
  - unfold line, base, footer_text. intros [-> | ->]; now rewrite !app_nil_r.
  - intros f -> Hf. unfold line, base, footer_text.
    destruct f as [|c t]; [congruence|].
    rewrite slice_to_firstn by lia. change (Z.to_nat 50) with 50%nat.
    now rewrite <- !app_assoc.
Qed.

Lemma reply_plan_blocks_witness :
  lit "- build fixed" <> []
  /\ exists chunks,
       split_text_into_chunks (lit "- build fixed") EMBED_DESC_LIMIT = Some chunks
       /\ exists rest outcome,
            deliver example_world example_history (lit "- build fixed")
              (lit "2h") (lit "1h") (Some (lit "the build"))
            = (SendEmbeds
                 (make_embeds chunks
                    (footer_text 4 (lit "2h") (lit "1h") (Some (lit "the build"))))
               :: rest, outcome).
Proof.
  split; [discriminate|].
  destruct (reply_plan_blocks example_world example_history (lit "- build fixed")
              (lit "2h") (lit "1h") (Some (lit "the build")) ltac:(discriminate))
    as (chunks & E & Hsend & _).
  exists chunks. split; [exact E|exact Hsend].
Defined.

(** * Further properties of the code *)

(** ** The parser *)

(** X1. Whitespace around a time string is ignored: a string in the format,
    padded on either side with any whitespace, parses exactly as it does
    bare (the same duration, or the same [ValueError]/[OverflowError]). *)
Theorem parse_time_ago_padding (ws1 s ws2 : str) :
  forallb is_space ws1 = true -> forallb is_space ws2 = true ->
  spec_time_format s = true ->
  parse_time_ago (ws1 ++ s ++ ws2) = parse_time_ago s.
Proof.
  intros H1 H2 F.
  pose proof (strip_padded_format ws1 s ws2 H1 H2 F) as E.
  pose proof (strip_padded_format [] s [] eq_refl eq_refl F) as E'.
  simpl in E'. rewrite app_nil_r in E'.
  apply parse_time_ago_of_strip; [congruence|]. now rewrite E.
Qed.

Lemma parse_time_ago_padding_witness :
  (forallb is_space [9; 32]%N = true /\ forallb is_space [13; 10]%N = true
   /\ spec_time_format (lit "90M") = true)
  /\ parse_time_ago ([9; 32]%N ++ lit "90M" ++ [13; 10]%N)
     = parse_time_ago (lit "90M").
Proof.
  split; [repeat split|].
  apply (parse_time_ago_padding [9; 32]%N (lit "90M") [13; 10]%N); reflexivity.
Defined.

Lemma lower_unit_letter (u : N) :
  is_unit_letter u = true ->
  is_unit_letter (lower u) = true /\ unit_seconds (lower u) = unit_seconds u.
Proof.
  intros H. apply is_unit_letter_In in H. simpl in H.
  repeat (destruct H as [<-|H]; [split; reflexivity|]). contradiction H.
Qed.

(** X2. The unit letter is read without regard to case: a string in the
    format parses exactly as the same digits followed by the lowered unit
    letter. *)
Theorem parse_time_ago_unit_case (digits : str) (u : N) :
  spec_time_format (digits ++ [u]) = true ->
  parse_time_ago (digits ++ [u]) = parse_time_ago (digits ++ [lower u]).
Proof.
  intros F. apply spec_time_format_iff in F as (d & v & E & Hne & Hall & Hv).
  apply app_inj_tail in E as [-> ->].
  destruct (lower_unit_letter v Hv) as [Hl Hs].
  rewrite (parse_time_ago_format _ d v (strip_format d v Hne Hall Hv) Hne Hall Hv).
  rewrite (parse_time_ago_format _ d (lower v) (strip_format d _ Hne Hall Hl) Hne Hall Hl).
  now rewrite Hs.
Qed.

Lemma parse_time_ago_unit_case_witness :
  spec_time_format (lit "36" ++ [72%N]) = true
  /\ parse_time_ago (lit "36" ++ [72%N]) = parse_time_ago (lit "36" ++ [lower 72%N])
  /\ parse_time_ago (lit "36H") = Return (mk_timedelta 1 43200 0).
Proof.
  split; [reflexivity|]. split; [|reflexivity].
  apply (parse_time_ago_unit_case (lit "36") 72%N). reflexivity.
Defined.

Lemma unit_seconds_minutes (u : N) : exists k, 0 < k /\ unit_seconds u = 60 * k.
Proof.
  unfold unit_seconds. destruct (_ || _)%bool; [exists 1; lia|].
  destruct (_ || _)%bool; [exists 60; lia|exists 1440; lia].
Qed.

(** What the parser returns, spelled out. *)
Lemma parse_time_ago_returns (s : str) (td : timedelta) :
  parse_time_ago s = Return td ->
  exists total,
    0 <= total /\ total mod 60 = 0 /\ total / 86400 <= MAX_DELTA_DAYS
    /\ td = mk_timedelta (total / 86400) (total mod 86400) 0.
Proof.
  intros R.
  destruct (TIME_PATTERN_match (strip s)) as [[g1 g2]|] eqn:M;
    [|unfold parse_time_ago in R; rewrite M in R; discriminate].
  apply TIME_PATTERN_match_strip_inv in M as (u & -> & E & Hne & Hall & Hu).
  rewrite (parse_time_ago_format s g1 u E Hne Hall Hu) in R.
  destruct (MAX_STR_DIGITS <? len g1); [discriminate|].
  unfold duration_of_seconds in R.
  set (total := digits_value 0 g1 * unit_seconds u) in *.
  destruct (Z.ltb_spec MAX_DELTA_DAYS (total / 86400)); [discriminate|].
  injection R as <-. exists total.
  pose proof (digits_value_nonneg g1 0 ltac:(lia)) as Hv.
  destruct (unit_seconds_minutes u) as (k & Hk & Ek).
  repeat split; try assumption.
  - unfold total. rewrite Ek. nia.
  - unfold total. rewrite Ek.
    replace (digits_value 0 g1 * (60 * k)) with (digits_value 0 g1 * k * 60) by lia.
    apply Z.mod_mul. lia.
Qed.

Lemma total_seconds_of (total : Z) :
  total_seconds (mk_timedelta (total / 86400) (total mod 86400) 0) = total.
Proof.
  unfold total_seconds. simpl. pose proof (Z.div_mod total 86400 ltac:(lia)). lia.
Qed.

(** X3. Whatever the parser returns is a span of whole minutes that is not
    negative and that [timedelta] holds: normalised, no microseconds, at
    most 999999999 days. *)
Theorem parse_time_ago_range (s : str) (td : timedelta) :
  parse_time_ago s = Return td ->
  0 <= total_seconds td
  /\ total_seconds td mod 60 = 0
  /\ microseconds td = 0
  /\ normalized td
  /\ 0 <= days td <= MAX_DELTA_DAYS.
Proof.
  intros R. destruct (parse_time_ago_normalized s td R) as [Hn Hu].
  apply parse_time_ago_returns in R as (total & H0 & H60 & Hmax & ->).
  rewrite total_seconds_of. simpl days.
  pose proof (Z.div_pos total 86400 H0 ltac:(lia)).
  repeat split; try assumption; try lia; apply Hn.
Qed.

Lemma parse_time_ago_range_witness :
  parse_time_ago (lit "90m") = Return (mk_timedelta 0 5400 0)
  /\ 0 <= total_seconds (mk_timedelta 0 5400 0)
  /\ total_seconds (mk_timedelta 0 5400 0) mod 60 = 0
  /\ microseconds (mk_timedelta 0 5400 0) = 0
  /\ normalized (mk_timedelta 0 5400 0)
  /\ 0 <= days (mk_timedelta 0 5400 0) <= MAX_DELTA_DAYS.
Proof.
  split; [reflexivity|].
  apply (parse_time_ago_range (lit "90m") (mk_timedelta 0 5400 0)). reflexivity.
Defined.

(** ** The chunker *)

Lemma lstrip_split (s : str) :
  exists ws, s = ws ++ lstrip s /\ forallb is_space ws = true.
Proof.
  induction s as [|c t (ws & E & H)]; [now exists []|].
  simpl. destruct (is_space c) eqn:Hc.
  - exists (c :: ws). simpl. rewrite Hc, H. split; [now rewrite <- E|reflexivity].
  - now exists [].
Qed.

Lemma rstrip_split (s : str) :
  exists ws, s = rstrip s ++ ws /\ forallb is_space ws = true.
Proof.
  destruct (lstrip_split (rev s)) as (ws & E & H).
  exists (rev ws). split; [|now apply forallb_rev].
  unfold rstrip. rewrite <- rev_app_distr, <- E. now rewrite rev_involutive.
Qed.

Lemma rstrip_idempotent (s : str) : rstrip (rstrip s) = rstrip s.
Proof.
  destruct (rstrip_ends s) as [E|(t & c & E & Hc)]; rewrite E; [reflexivity|].
  now apply rstrip_snoc.
Qed.

Lemma slice_to_from (s : str) (k : Z) : slice_to s k ++ slice_from s k = s.
Proof. unfold slice_to, slice_from. apply firstn_skipn. Qed.

Lemma forallb_app_true (p : N -> bool) (a b : str) :
  forallb p a = true -> forallb p b = true -> forallb p (a ++ b) = true.
Proof. intros Ha Hb. rewrite forallb_app. now rewrite Ha, Hb. Qed.

Lemma pieces_pad (ws text : str) (chunks : list str) :
  forallb is_space ws = true -> pieces text chunks -> pieces (ws ++ text) chunks.
Proof.
  intros H P. destruct P as [ws' H'|ws' chunk rest chunks H' P].
  - constructor. now apply forallb_app_true.
  - rewrite app_assoc. constructor; [now apply forallb_app_true|exact P].
Qed.

Lemma pieces_single (text : str) : pieces text [text].
Proof.
  pose proof (pieces_chunk [] text [] [] eq_refl (pieces_end [] eq_refl)) as P.
  simpl in P. now rewrite app_nil_r in P.
Qed.

(** One pass cuts [remaining] into the chunk, whitespace, and the rest. *)
Lemma pass_pieces (remaining : str) (sp : Z) :
  exists ws,
    forallb is_space ws = true
    /\ remaining = rstrip (slice_to remaining sp) ++ ws
                   ++ lstrip (slice_from remaining sp).
Proof.
  destruct (rstrip_split (slice_to remaining sp)) as (ws1 & E1 & H1).
  destruct (lstrip_split (slice_from remaining sp)) as (ws2 & E2 & H2).
  exists (ws1 ++ ws2). split; [now apply forallb_app_true|].
  rewrite <- app_assoc, <- E2, app_assoc, <- E1. symmetry. apply slice_to_from.
Qed.

Lemma split_loop_pieces (fuel : nat) (max_length : Z) (remaining : str)
  (out : list str) :
  split_loop fuel max_length remaining [] = Some out -> pieces remaining out.
Proof.
  revert remaining out. induction fuel as [|fuel IH]; intros [|c t] out Hrun;
    simpl in Hrun; try discriminate;
    try (injection Hrun as <-; now constructor).
  destruct (len (c :: t) <=? max_length).
  - injection Hrun as <-. apply pieces_single.
  - rewrite split_loop_acc in Hrun.
    destruct (split_loop fuel max_length _ []) as [out'|] eqn:E; [|discriminate].
    injection Hrun as <-. apply IH in E.
    destruct (pass_pieces (c :: t) (split_point (c :: t) max_length)) as (ws & H & R).
    rewrite R at 1.
    apply (pieces_chunk [] _ _ out' eq_refl). now apply pieces_pad.
Qed.

Lemma visible_app (a b : str) : visible (a ++ b) = visible a ++ visible b.
Proof. apply filter_app. Qed.

Lemma visible_spaces (ws : str) : forallb is_space ws = true -> visible ws = [].
Proof.
  induction ws as [|c t IH]; [reflexivity|]. simpl. intros H.
  apply andb_prop in H as [Hc Ht]. rewrite Hc. simpl. now apply IH.
Qed.

Lemma pieces_visible (text : str) (chunks : list str) :
  pieces text chunks -> visible (concat chunks) = visible text.
Proof.
  induction 1 as [ws H|ws chunk rest chunks H P IH].
  - simpl. now rewrite visible_spaces.
  - simpl. rewrite !visible_app, IH. now rewrite (visible_spaces ws H).
Qed.

(** X4. The chunker loses and reorders nothing but whitespace at the cuts:
    for a positive limit the text starts with the first chunk, and what
    follows it is the other chunks, in order, with only whitespace between
    and after them; so the characters that are not whitespace are those of
    the text, in the same order. *)
Theorem chunks_cover_text (text : str) (max_length : Z) :
  0 < max_length ->
  exists first others tail,
    split_text_into_chunks text max_length = Some (first :: others)
    /\ text = first ++ tail
    /\ pieces tail others
    /\ (others = [] -> forallb is_space tail = true)
    /\ visible (concat (first :: others)) = visible text.
Proof.
  intros H.
  assert (C : exists first others tail,
             split_text_into_chunks text max_length = Some (first :: others)
             /\ text = first ++ tail /\ pieces tail others).
  { unfold split_text_into_chunks, split_text_into_chunks_fuel.
    destruct (len text <=? max_length) eqn:L.
    - exists text, [], []. rewrite app_nil_r. repeat split. now constructor.
    - apply Z.leb_gt in L.
      pose proof (longer_nonempty text max_length H L) as Hne.
      destruct (split_loop_total (length text) max_length text [] H (le_n _))
        as [out E].
      rewrite E. destruct text as [|c t]; [congruence|].
      change (length (c :: t)) with (S (length t)) in E.
      rewrite split_loop_pass in E by assumption.
      rewrite split_loop_acc in E.
      destruct (split_loop (length t) max_length _ []) as [out'|] eqn:E';
        [|discriminate].
      injection E as <-. apply split_loop_pieces in E'.
      destruct (pass_pieces (c :: t) (split_point (c :: t) max_length))
        as (ws & Hws & R).
      eexists _, out', _. split; [reflexivity|]. split; [exact R|].
      now apply pieces_pad. }
  destruct C as (first & others & tail & E & Et & P).
  exists first, others, tail. repeat split; try assumption.
  - intros ->. now inversion P.
  - simpl concat. rewrite Et, !visible_app. f_equal. now apply pieces_visible.
Qed.

Lemma chunks_cover_text_witness :
  0 < 6
  /\ exists tail,
       split_text_into_chunks (lit "ab  cd   ef gh") 6 = Some [lit "ab  cd"; lit "ef gh"]
       /\ lit "ab  cd   ef gh" = lit "ab  cd" ++ tail
       /\ pieces tail [lit "ef gh"]
       /\ visible (concat [lit "ab  cd"; lit "ef gh"]) = visible (lit "ab  cd   ef gh").
Proof.
  split; [lia|].
  destruct (chunks_cover_text (lit "ab  cd   ef gh") 6 ltac:(lia))
    as (first & others & tail & E & Et & P & _ & V).
  assert (C : first :: others = [lit "ab  cd"; lit "ef gh"])
    by (vm_compute in E; now injection E as <- <-).
  injection C as -> ->. exists tail. repeat split; assumption.
Defined.

Lemma rstrip_keeps_head (x : N) (l : str) :
  is_space x = false -> exists l', rstrip (x :: l) = x :: l'.
Proof.
  intros Hx. destruct (rstrip_split (x :: l)) as (ws & E & H).
  destruct (rstrip (x :: l)) as [|y l'].
  - simpl in E. subst ws. simpl in H. rewrite Hx in H. discriminate.
  - injection E as -> _. now exists l'.
Qed.

Lemma lstrip_starts_visible (s : str) : lstrip s = [] \/ starts_visible (lstrip s).
Proof. apply lstrip_starts. Qed.

(** From a [remaining] that starts with a visible character, every chunk
    starts with one, and every chunk but the last is right-stripped. *)
Lemma split_loop_trimmed (fuel : nat) (max_length : Z) (remaining : str)
  (out : list str) :
  0 < max_length ->
  remaining = [] \/ starts_visible remaining ->
  split_loop fuel max_length remaining [] = Some out ->
  Forall starts_visible out /\ Forall (fun c => rstrip c = c) (removelast out).
Proof.
  intros H. revert remaining out.
  induction fuel as [|fuel IH]; intros [|c t] out Hs Hrun; simpl in Hrun;
    try discriminate; try (injection Hrun as <-; now split; constructor).
  destruct Hs as [Hs|(x & t' & Ex & Hx)]; [discriminate|].
  injection Ex as <- <-.
  destruct (len (c :: t) <=? max_length) eqn:L.
  - injection Hrun as <-. split; [|constructor].
    constructor; [now exists c, t|constructor].
  - apply Z.leb_gt in L. rewrite split_loop_acc in Hrun.
    destruct (split_loop fuel max_length _ []) as [out'|] eqn:E; [|discriminate].
    injection Hrun as <-.
    apply IH in E; [|apply lstrip_starts_visible]. destruct E as [Hv Hr].
    set (sp := split_point (c :: t) max_length) in *.
    assert (Hchunk : exists l', rstrip (slice_to (c :: t) sp) = c :: l').
    { pose proof (split_point_range (c :: t) max_length H) as R. fold sp in R.
      rewrite slice_to_firstn by lia.
      replace (Z.to_nat sp) with (S (Z.to_nat (sp - 1))) by lia.
      simpl firstn. now apply rstrip_keeps_head. }
    destruct Hchunk as [l' El]. split.
    + simpl app. constructor; [rewrite El; now exists c, l'|exact Hv].
    + simpl app. destruct out' as [|o out'']; [constructor|].
      change (removelast (rstrip (slice_to (c :: t) sp) :: o :: out''))
        with (rstrip (slice_to (c :: t) sp) :: removelast (o :: out'')).
      constructor; [apply rstrip_idempotent|exact Hr].
Qed.

(** X5. For a positive limit the cuts are trimmed: every chunk after the
    first starts with a character that is not whitespace (so only the first
    chunk can be empty), and every chunk before the last ends without
    trailing whitespace. *)
Theorem chunks_trimmed_at_cuts (text : str) (max_length : Z) :
  0 < max_length ->
  exists first others,
    split_text_into_chunks text max_length = Some (first :: others)
    /\ Forall starts_visible others
    /\ Forall (fun c => rstrip c = c) (removelast (first :: others)).
Proof.
  intros H. unfold split_text_into_chunks, split_text_into_chunks_fuel.
  destruct (len text <=? max_length) eqn:L.
  - exists text, []. repeat split; constructor.
  - apply Z.leb_gt in L.
    pose proof (longer_nonempty text max_length H L) as Hne.
    destruct (split_loop_total (length text) max_length text [] H (le_n _)) as [out E].
    rewrite E. destruct text as [|c t]; [congruence|].
    change (length (c :: t)) with (S (length t)) in E.
    rewrite split_loop_pass in E by assumption.
    rewrite split_loop_acc in E.
    destruct (split_loop (length t) max_length _ []) as [out'|] eqn:E'; [|discriminate].
    injection E as <-.
    apply split_loop_trimmed in E'; [|exact H|apply lstrip_starts_visible].
    destruct E' as [Hv Hr].
    eexists _, out'. split; [reflexivity|]. split; [exact Hv|].
    destruct out' as [|o out'']; [constructor|].
    set (c1 := rstrip _).
    change (removelast (c1 :: o :: out'')) with (c1 :: removelast (o :: out'')).
    constructor; [apply rstrip_idempotent|exact Hr].
Qed.

Lemma chunks_trimmed_at_cuts_witness :
  0 < 6
  /\ exists first others,
       split_text_into_chunks (lit "  ab cd   ef gh   ij") 6 = Some (first :: others)
       /\ Forall starts_visible others
       /\ Forall (fun c => rstrip c = c) (removelast (first :: others)).
Proof.
  split; [lia|].
  apply (chunks_trimmed_at_cuts (lit "  ab cd   ef gh   ij") 6). lia.
Defined.

Lemma visible_lstrip (s : str) : visible (lstrip s) = visible s.
Proof.
  destruct (lstrip_split s) as (ws & E & H).
  rewrite E at 2. now rewrite visible_app, (visible_spaces ws H).
Qed.

Lemma lstrip_idempotent (s : str) : lstrip (lstrip s) = lstrip s.
Proof.
  destruct (lstrip_starts s) as [E|(c & t & E & Hc)]; rewrite E; [reflexivity|].
  now apply lstrip_head.
Qed.

Lemma split_point_zero (s : str) : split_point s 0 = 0.
Proof.
  unfold split_point, rfind. rewrite slice_to_firstn by lia. reflexivity.
Qed.

(** With limit 0 a pass leaves a left-stripped [remaining] as it is. *)
Lemma split_loop_zero (fuel : nat) (r : str) (acc : list str) :
  r <> [] -> lstrip r = r -> split_loop fuel 0 r acc = None.
Proof.
  intros Hne Hr. revert acc.
  induction fuel as [|fuel IH]; intros acc; destruct r as [|c t] eqn:Er;
    try congruence; [reflexivity|].
  rewrite <- Er in *. rewrite split_loop_pass.
  - rewrite split_point_zero, slice_from_skipn by lia. simpl skipn.
    rewrite Hr. apply IH.
  - rewrite Er. unfold len. simpl length. lia.
  - congruence.
Qed.

(** X6. The limit 0: a text with no character but whitespace gives the
    single empty chunk, and any other text makes the loop run for ever,
    appending an empty chunk at every pass. *)
Theorem split_limit_zero_behaviour (text : str) :
  (visible text = [] -> split_text_into_chunks text 0 = Some [[]])
  /\ (visible text <> [] ->
      forall fuel, split_text_into_chunks_fuel fuel text 0 = None).
Proof.
  split.
  - intros V. unfold split_text_into_chunks, split_text_into_chunks_fuel.
    destruct text as [|c t]; [reflexivity|].
    assert (L : lstrip (c :: t) = []).
    { destruct (lstrip_starts (c :: t)) as [E|(x & l & E & Hx)]; [exact E|].
      rewrite <- visible_lstrip, E in V. simpl in V. rewrite Hx in V.
      discriminate. }
    change (len (c :: t) <=? 0) with false. cbv iota.
    change (length (c :: t)) with (S (length t)).
    rewrite split_loop_pass by (unfold len; simpl length; lia || discriminate).
    rewrite split_point_zero, slice_from_skipn, slice_to_firstn by lia.
    simpl skipn. simpl firstn. rewrite L. now destruct (length t).
  - intros V fuel. unfold split_text_into_chunks_fuel.
    destruct text as [|c t]; [now contradiction V|].
    change (len (c :: t) <=? 0) with false. cbv iota.
    destruct fuel as [|fuel]; [reflexivity|].
    rewrite split_loop_pass by (unfold len; simpl length; lia || discriminate).
    rewrite split_point_zero, slice_from_skipn by lia. simpl skipn.
    apply split_loop_zero; [|apply lstrip_idempotent].
    intros E. rewrite <- visible_lstrip, E in V. now apply V.
Qed.

(** The loop emits at most one chunk per pass it can afford. *)
Lemma split_loop_count (fuel : nat) (max_length : Z) (remaining : str)
  (out : list str) :
  0 < max_length ->
  split_loop fuel max_length remaining [] = Some out ->
  Z.of_nat (length out) <= len remaining / (max_length / 2 + 1) + 1.
Proof.
  intros H. assert (Hh : 0 < max_length / 2 + 1)
    by (pose proof (Z.div_pos max_length 2); lia).
  revert remaining out.
  induction fuel as [|fuel IH]; intros remaining out Hrun;
    pose proof (Z.div_pos (len remaining) (max_length / 2 + 1) (len_nonneg _) Hh);
    destruct remaining as [|c t]; simpl in Hrun; try discriminate;
    try (injection Hrun as <-; simpl; lia).
  destruct (len (c :: t) <=? max_length) eqn:L.
  - injection Hrun as <-. simpl. lia.
  - apply Z.leb_gt in L. rewrite split_loop_acc in Hrun.
    destruct (split_loop fuel max_length _ []) as [out'|] eqn:E; [|discriminate].
    injection Hrun as <-. apply IH in E.
    pose proof (remainder_shrinks (c :: t) max_length H L) as S.
    set (r' := lstrip _) in *.
    assert (len r' / (max_length / 2 + 1)
            <= (len (c :: t) - (max_length / 2 + 1)) / (max_length / 2 + 1))
      by (apply Z.div_le_mono; lia).
    replace (len (c :: t) - (max_length / 2 + 1))
      with (len (c :: t) + (-1) * (max_length / 2 + 1)) in * by lia.
    rewrite Z.div_add in * by lia.
    simpl app. simpl length. lia.
Qed.

(** X7. For a positive limit the number of chunks is at least 1 and at most
    [len text / (max_length // 2 + 1) + 1]; so with the limit 4096 a summary
    shorter than 20490 characters gives at most 10 chunks, and the reply
    shows every one of them: the cap of 10 blocks drops nothing. *)
Theorem chunk_count_bound (text : str) (max_length : Z) :
  0 < max_length ->
  exists chunks,
    split_text_into_chunks text max_length = Some chunks
    /\ 1 <= Z.of_nat (length chunks) <= len text / (max_length / 2 + 1) + 1
    /\ (max_length = EMBED_DESC_LIMIT -> len text < 20490 ->
        forall line, map description (make_embeds chunks line) = chunks).
Proof.
  intros H. destruct (split_text_into_chunks_total text max_length H) as [chunks E].
  exists chunks. split; [exact E|].
  pose proof (chunks_nonempty text max_length chunks ltac:(lia) E) as Hne.
  assert (Hh : 0 < max_length / 2 + 1)
    by (pose proof (Z.div_pos max_length 2); lia).
  pose proof (Z.div_pos (len text) (max_length / 2 + 1) (len_nonneg _) Hh) as Hq.
  assert (Hcount : Z.of_nat (length chunks) <= len text / (max_length / 2 + 1) + 1).
  { unfold split_text_into_chunks, split_text_into_chunks_fuel in E.
    destruct (len text <=? max_length).
    - injection E as <-. simpl. lia.
    - now apply split_loop_count in E. }
  split; [split; [destruct chunks; [congruence|simpl; lia]|exact Hcount]|].
  intros -> Hlen line. unfold make_embeds. rewrite embeds_from_description.
  apply firstn_all2. change (Z.to_nat MAX_EMBEDS_PER_MESSAGE) with 10%nat.
  change (EMBED_DESC_LIMIT / 2 + 1) with 2049 in Hcount.
  assert (len text / 2049 < 10) by (apply Z.div_lt_upper_bound; lia).
  lia.
Qed.

Lemma chunk_count_bound_witness :
  0 < EMBED_DESC_LIMIT
  /\ exists chunks,
       split_text_into_chunks scenario_text EMBED_DESC_LIMIT = Some chunks
       /\ 1 <= Z.of_nat (length chunks)
            <= len scenario_text / (EMBED_DESC_LIMIT / 2 + 1) + 1
       /\ forall line, map description (make_embeds chunks line) = chunks.
Proof.
  split; [reflexivity|].
  destruct (chunk_count_bound scenario_text EMBED_DESC_LIMIT ltac:(reflexivity))
    as (chunks & E & Hcount & Hall).
  exists chunks. split; [exact E|]. split; [exact Hcount|].
  apply Hall; [reflexivity|vm_compute; reflexivity].
Defined.

(** ** The handler *)

(** The exceptions of the parser. *)
Lemma parse_time_ago_raises (s : str) (e : exn) :
  parse_time_ago s = Raise e ->
  (e = TimeParseError (invalid_format_message s)
   /\ spec_time_format (strip s) = false)
  \/ ((e = ValueError \/ e = OverflowError)
      /\ spec_time_format (strip s) = true).
Proof.
  intros R.
  destruct (TIME_PATTERN_match (strip s)) as [[g1 g2]|] eqn:M.
  - assert (F : spec_time_format (strip s) = true)
      by (apply TIME_PATTERN_match_strip; eexists; exact M).
    apply TIME_PATTERN_match_strip_inv in M as (u & -> & E & Hne & Hall & Hu).
    rewrite (parse_time_ago_format s g1 u E Hne Hall Hu) in R.
    right. split; [|exact F].
    destruct (MAX_STR_DIGITS <? len g1); [left; congruence|].
    unfold duration_of_seconds in R.
    destruct (MAX_DELTA_DAYS <? _); [right; congruence|discriminate].
  - left. unfold parse_time_ago in R. rewrite M in R. split; [congruence|].
    destruct (spec_time_format (strip s)) eqn:F; [|reflexivity].
    apply TIME_PATTERN_match_strip in F as [g F]. congruence.
Qed.

(** A string outside the format, once stripped, raises the invalid-format
    error. *)
Lemma invalid_format_raises (s : str) :
  spec_time_format (strip s) = false ->
  parse_time_ago s = Raise (TimeParseError (invalid_format_message s)).
Proof.
  intros F. unfold parse_time_ago.
  destruct (TIME_PATTERN_match (strip s)) as [g|] eqn:M; [|reflexivity].
  assert (T : spec_time_format (strip s) = true)
    by (apply TIME_PATTERN_match_strip; now exists g).
  congruence.
Qed.

(** The reply to an exception [e] of the parser. *)
Lemma tldr_command_start_raises (w : World) (start end_ : str)
  (focus : option str) (e : exn) :
  parse_time_ago start = Raise e ->
  tldr_command w start end_ focus
  = (Defer ::
       match e with
       | TimeParseError msg => [SendContent ([CROSS_MARK] ++ lit " " ++ msg)]
       | _ => [LogException (lit "Error generating summary: " ++ exn_str w e);
               SendContent (unexpected_message (exn_str w e))]
       end,
     Return tt).
Proof.
  intros R. unfold tldr_command, parse_range. rewrite R.
  destruct (parse_time_ago_raises _ _ R) as [[-> _]|[[-> | ->] _]]; reflexivity.
Qed.

Lemma tldr_command_end_raises (w : World) (start end_ : str)
  (focus : option str) (start_delta : timedelta) (e : exn) :
  parse_time_ago start = Return start_delta ->
  parse_time_ago end_ = Raise e ->
  tldr_command w start end_ focus
  = (Defer ::
       match e with
       | TimeParseError msg => [SendContent ([CROSS_MARK] ++ lit " " ++ msg)]
       | _ => [LogException (lit "Error generating summary: " ++ exn_str w e);
               SendContent (unexpected_message (exn_str w e))]
       end,
     Return tt).
Proof.
  intros Rs R. unfold tldr_command, parse_range. rewrite Rs, R.
  destruct (parse_time_ago_raises _ _ R) as [[-> _]|[[-> | ->] _]]; reflexivity.
Qed.

Ltac settle := repeat split; try (now eexists); try lia;
  try (simpl; intuition discriminate).

(** X8. Whatever the arguments and whatever the gateway and the model return
    or raise, a run of the command starts with the acknowledgement, asks the
    gateway at most once and the model at most once, and never hangs in the
    chunker.  It ends in one of two ways: normally, having sent exactly one
    reply; or with an exception that [except Exception] does not catch (a
    [BaseExceptionOnly], as [asyncio.CancelledError]), raised by the fetch,
    by the read of the channel name or by the model and passed on, and then
    no reply was sent. *)
Theorem tldr_command_replies_once (w : World) (start end_ : str)
  (focus : option str) :
  let run := tldr_command w start end_ focus in
  (exists rest, fst run = Defer :: rest)
  /\ (length (fetches run) <= 1)%nat
  /\ (length (generations run) <= 1)%nat
  /\ ~ In Diverge (fst run)
  /\ match snd run with
     | Return _ => length (sends run) = 1%nat
     | Raise e =>
         sends run = []
         /\ (exists description, e = BaseExceptionOnly description)
         /\ ((exists limit after before,
                 history w limit after before = Raise e)
             \/ channel_name w = Raise e
             \/ exists prompt, generate w prompt = Raise e)
     end.
Proof.
  intros run. unfold run.
  destruct (parse_time_ago start) as [sd|e1] eqn:Rs.
  2: { rewrite (tldr_command_start_raises w start end_ focus e1 Rs).
       unfold sends, fetches, generations.
       destruct (parse_time_ago_raises _ _ Rs) as [[-> _]|[[-> | ->] _]];
         run_step; settle. }
  destruct (parse_time_ago end_) as [ed|e2] eqn:Re.
  2: { rewrite (tldr_command_end_raises w start end_ focus sd e2 Rs Re).
       unfold sends, fetches, generations.
       destruct (parse_time_ago_raises _ _ Re) as [[-> _]|[[-> | ->] _]];
         run_step; settle. }
  rewrite (tldr_command_parsed w start end_ focus sd ed Rs Re).
  unfold summarize, deliver, send_summary, on_exception, sends, fetches,
    generations.
  destruct (gtb sd _); run_step; [settle|].
  destruct (geb ed sd); run_step; [settle|].
  destruct (history w _ _ _) as [fetched|e3] eqn:Hh; run_step.
  2: { destruct e3; run_step; settle;
         try (left; do 3 eexists; exact Hh). }
  destruct (filter qualifies fetched) as [|m kept]; run_step; [settle|].
  destruct (channel_name w) as [name|e4] eqn:Hn; run_step.
  2: { destruct e4; run_step; settle; try (now right; left). }
  set (prompt := config.SUMMARY_PROMPT_format _ _).
  destruct (generate w prompt) as [[|c text]|e5] eqn:Hg; run_step.
  - settle.
  - destruct (split_text_into_chunks_total (c :: text) EMBED_DESC_LIMIT
                ltac:(reflexivity)) as [chunks E].
    rewrite E. run_step. settle.
  - destruct e5; run_step; settle;
      try (right; right; eexists; exact Hg).
Qed.

(** X9. A malformed time argument is reported and nothing else is done: when
    [start], or [end] after a [start] that parsed, is outside the format once
    stripped, the run is the acknowledgement and one reply that quotes the
    argument as it was given; the gateway and the model are not called. *)
Theorem bad_time_format_reply (w : World) (start end_ bad : str)
  (focus : option str) :
  (bad = start /\ spec_time_format (strip start) = false)
  \/ (bad = end_ /\ (exists start_delta, parse_time_ago start = Return start_delta)
      /\ spec_time_format (strip end_) = false) ->
  tldr_command w start end_ focus
  = ([Defer;
      SendContent ([CROSS_MARK] ++ lit " Invalid time format: `" ++ bad
                   ++ lit "`. Use format like `30m`, `1h`, or `2d`.")],
     Return tt).
Proof.
  intros [[-> F]|(-> & [sd Rs] & F)].
  - now rewrite (tldr_command_start_raises w start end_ focus _
                   (invalid_format_raises start F)).
  - now rewrite (tldr_command_end_raises w start end_ focus sd _ Rs
                   (invalid_format_raises end_ F)).
Qed.

Lemma bad_time_format_reply_witness :
  (spec_time_format (strip (lit "soon")) = false
   /\ parse_time_ago (lit "2h") = Return (mk_timedelta 0 7200 0)
   /\ spec_time_format (strip (lit "1 h")) = false)
  /\ tldr_command example_world (lit "soon") (lit "0m") None
     = ([Defer;
         SendContent ([CROSS_MARK] ++ lit " Invalid time format: `" ++ lit "soon"
                      ++ lit "`. Use format like `30m`, `1h`, or `2d`.")],
        Return tt)
  /\ tldr_command example_world (lit "2h") (lit "1 h") None
     = ([Defer;
         SendContent ([CROSS_MARK] ++ lit " Invalid time format: `" ++ lit "1 h"
                      ++ lit "`. Use format like `30m`, `1h`, or `2d`.")],
        Return tt).
Proof.
  split; [repeat split|]. split.
  - apply (bad_time_format_reply example_world (lit "soon") (lit "0m") (lit "soon") None).
    left. split; reflexivity.
  - apply (bad_time_format_reply example_world (lit "2h") (lit "1 h") (lit "1 h") None).
    right. split; [reflexivity|]. split; [now eexists|reflexivity].
Defined.

(** X10. A time argument in the format that [int] or [timedelta] refuses
    (more than 4300 digits, or 1000000000 days and more) is not reported as a
    bad format nor as a range too wide: the exception reaches the outer
    handler, which logs it and replies with the unexpected-error message; the
    gateway and the model are not called. *)
Theorem oversized_time_reply (w : World) (start end_ : str)
  (focus : option str) (e : exn) :
  parse_time_ago start = Raise e
  \/ ((exists start_delta, parse_time_ago start = Return start_delta)
      /\ parse_time_ago end_ = Raise e) ->
  e = ValueError \/ e = OverflowError ->
  tldr_command w start end_ focus
  = ([Defer;
      LogException (lit "Error generating summary: " ++ exn_str w e);
      SendContent (unexpected_message (exn_str w e))],
     Return tt).
Proof.
  intros [R|[[sd Rs] R]] He.
  - rewrite (tldr_command_start_raises w start end_ focus e R).
    destruct He; subst; reflexivity.
  - rewrite (tldr_command_end_raises w start end_ focus sd e Rs R).
    destruct He; subst; reflexivity.
Qed.

Lemma oversized_time_reply_witness :
  parse_time_ago (lit "1000000000d") = Raise OverflowError
  /\ tldr_command example_world (lit "1000000000d") (lit "0m") None
     = ([Defer;
         LogException (lit "Error generating summary: "
                       ++ exn_str example_world OverflowError);
         SendContent (unexpected_message (exn_str example_world OverflowError))],
        Return tt).
Proof.
  split; [reflexivity|].
  apply (oversized_time_reply example_world (lit "1000000000d") (lit "0m") None
           OverflowError).
  - left. reflexivity.
  - right. reflexivity.
Defined.

(** The handler on a range that passes both checks. *)
Lemma tldr_command_accepted (w : World) (start end_ : str) (focus : option str)
  (start_delta end_delta : timedelta) :
  parse_time_ago start = Return start_delta ->
  parse_time_ago end_ = Return end_delta ->
  total_seconds end_delta < total_seconds start_delta
    <= config.MAX_TIME_RANGE_DAYS * 86400 ->
  tldr_command w start end_ focus
  = bind (emit Defer)
      (fun _ => try_except (summarize w start_delta end_delta start end_ focus)
                  (on_exception w)).
Proof.
  intros Hs He Hr.
  destruct (parse_time_ago_normalized _ _ Hs) as [Ns Us].
  destruct (parse_time_ago_normalized _ _ He) as [Ne Ue].
  assert (Nm : normalized (mk_timedelta config.MAX_TIME_RANGE_DAYS 0 0))
    by (unfold normalized; simpl; lia).
  rewrite (tldr_command_parsed w start end_ focus _ _ Hs He).
  rewrite (gtb_seconds _ _ Ns Nm Us eq_refl), (geb_seconds _ _ Ne Ns Ue Us).
  change (total_seconds (mk_timedelta config.MAX_TIME_RANGE_DAYS 0 0))
    with (config.MAX_TIME_RANGE_DAYS * 86400).
  destruct (Z.ltb_spec (config.MAX_TIME_RANGE_DAYS * 86400) (total_seconds start_delta));
    [lia|].
  destruct (Z.leb_spec (total_seconds start_delta) (total_seconds end_delta));
    [lia|reflexivity].
Qed.

Lemma sort_by_created_at_length (l : list Message) :
  length (sort_by_created_at l) = length l.
Proof.
  assert (I : forall m s, length (insert_by_created_at m s) = S (length s)).
  { intros m s. induction s as [|x r IH]; [reflexivity|].
    simpl. destruct (created_at m <=? created_at x); simpl; [reflexivity|].
    now rewrite IH. }
  induction l as [|m r IH]; [reflexivity|].
  simpl. rewrite I. now rewrite IH.
Qed.

(** The model of [list.sort] is the stable sort: its result is in ascending
    order of [created_at], and the messages of any one instant are those of
    the input, in the order of the input. *)
Lemma insert_by_created_at_sorted (m : Message) (s : list Message) :
  Sorted (fun a b => created_at a <= created_at b) s ->
  Sorted (fun a b => created_at a <= created_at b) (insert_by_created_at m s).
Proof.
  induction s as [|x r IH]; intros H; simpl.
  - repeat constructor.
  - destruct (Z.leb_spec (created_at m) (created_at x)) as [L|L].
    + constructor; [exact H|]. now constructor.
    + inversion H as [|? ? Hr Hx]; subst. constructor; [now apply IH|].
      destruct r as [|y r']; simpl.
      * constructor. lia.
      * destruct (Z.leb_spec (created_at m) (created_at y)); constructor;
          [lia|now inversion Hx].
Qed.

Lemma sort_by_created_at_sorted (l : list Message) :
  Sorted (fun a b => created_at a <= created_at b) (sort_by_created_at l).
Proof.
  induction l as [|m r IH]; simpl; [constructor|].
  now apply insert_by_created_at_sorted.
Qed.

Lemma insert_by_created_at_stable (k : Z) (m : Message) (s : list Message) :
  filter (fun x => created_at x =? k) (insert_by_created_at m s)
  = filter (fun x => created_at x =? k) (m :: s).
Proof.
  induction s as [|x r IH]; [reflexivity|].
  cbn [insert_by_created_at].
  destruct (Z.leb_spec (created_at m) (created_at x)) as [L|L]; [reflexivity|].
  cbn [filter] in *. rewrite IH.
  destruct (Z.eqb_spec (created_at m) k), (Z.eqb_spec (created_at x) k);
    try reflexivity. lia.
Qed.

Lemma sort_by_created_at_stable (k : Z) (l : list Message) :
  filter (fun x => created_at x =? k) (sort_by_created_at l)
  = filter (fun x => created_at x =? k) l.
Proof.
  induction l as [|m r IH]; [reflexivity|].
  cbn [sort_by_created_at fold_right].
  rewrite insert_by_created_at_stable. cbn [filter].
  fold (sort_by_created_at r). now rewrite IH.
Qed.

Example sort_keeps_ties :
  map author_display_name
    (sort_by_created_at
       [ mk_Message (lit "a") false (lit "x") 5;
         mk_Message (lit "b") false (lit "y") 5;
         mk_Message (lit "c") false (lit "z") 1 ])
  = [lit "c"; lit "a"; lit "b"].
Proof. reflexivity. Qed.

Lemma sort_by_created_at_nonempty (m : Message) (l : list Message) :
  exists x r, sort_by_created_at (m :: l) = x :: r.
Proof.
  pose proof (sort_by_created_at_length (m :: l)) as L.
  destruct (sort_by_created_at (m :: l)) as [|x r]; [discriminate|]. now exists x, r.
Qed.

Lemma none_qualifies (fetched : list Message) :
  (forall m, In m fetched -> author_bot m = true \/ strip (content m) = []) ->
  filter qualifies fetched = [].
Proof.
  intros H. induction fetched as [|m r IH]; [reflexivity|].
  simpl. assert (Q : qualifies m = false).
  { unfold qualifies. destruct (H m (or_introl eq_refl)) as [-> | ->];
      [reflexivity|now rewrite andb_false_r]. }
  rewrite Q. apply IH. intros x Hx. apply H. now right.
Qed.

(** X11. The only window the gateway is ever asked for lies in the past and
    within the configured range: any fetch of a run has the limit
    [MAX_MESSAGES] and bounds with
    [now - 3 days <= after < before <= now]. *)
Theorem fetch_window_bounds (w : World) (start end_ : str) (focus : option str)
  (limit after before : Z) :
  In (FetchHistory limit after before) (fst (tldr_command w start end_ focus)) ->
  limit = config.MAX_MESSAGES
  /\ now w - MAX_RANGE_MICROSECONDS <= after
  /\ after < before
  /\ before <= now w.
Proof.
  intros Hin.
  destruct (parse_time_ago start) as [sd|e] eqn:Rs.
  2: { exfalso. destruct (parse_time_ago_raises _ _ Rs) as [[-> _]|[[-> | ->] _]];
       rewrite (tldr_command_start_raises w start end_ focus _ Rs) in Hin;
       simpl in Hin; intuition discriminate. }
  destruct (parse_time_ago end_) as [ed|e] eqn:Re.
  2: { exfalso. destruct (parse_time_ago_raises _ _ Re) as [[-> _]|[[-> | ->] _]];
       rewrite (tldr_command_end_raises w start end_ focus sd _ Rs Re) in Hin;
       simpl in Hin; intuition discriminate. }
  destruct (parse_time_ago_normalized _ _ Rs) as [Ns Us].
  destruct (parse_time_ago_normalized _ _ Re) as [Ne Ue].
  assert (Nm : normalized (mk_timedelta config.MAX_TIME_RANGE_DAYS 0 0))
    by (unfold normalized; simpl; lia).
  rewrite (tldr_command_parsed w start end_ focus _ _ Rs Re) in Hin.
  rewrite (gtb_seconds _ _ Ns Nm Us eq_refl), (geb_seconds _ _ Ne Ns Ue Us) in Hin.
  change (total_seconds (mk_timedelta config.MAX_TIME_RANGE_DAYS 0 0))
    with 259200 in Hin.
  destruct (Z.ltb_spec 259200 (total_seconds sd));
    [simpl in Hin; intuition discriminate|].
  destruct (Z.leb_spec (total_seconds sd) (total_seconds ed));
    [simpl in Hin; intuition discriminate|].
  assert (Hf : In (FetchHistory limit after before)
                 (fetches (bind (emit Defer)
                    (fun _ => try_except (summarize w sd ed start end_ focus)
                                (on_exception w)))))
    by (apply filter_In; split; [exact Hin|reflexivity]).
  rewrite accepted_range_fetches_once in Hf.
  destruct Hf as [Hf|[]]. injection Hf as <- <- <-.
  apply parse_time_ago_returns in Re as (total & Htot & _ & _ & ->).
  unfold total_microseconds in *. rewrite Us. simpl microseconds.
  rewrite total_seconds_of in *.
  unfold MAX_RANGE_MICROSECONDS, config.MAX_TIME_RANGE_DAYS. lia.
Qed.

Lemma fetch_window_bounds_witness :
  In (FetchHistory 10000 0 3600000000)
     (fst (tldr_command example_world (lit "2h") (lit "1h") None))
  /\ 10000 = config.MAX_MESSAGES
  /\ now example_world - MAX_RANGE_MICROSECONDS <= 0
  /\ 0 < 3600000000
  /\ 3600000000 <= now example_world.
Proof.
  assert (H : In (FetchHistory 10000 0 3600000000)
                (fst (tldr_command example_world (lit "2h") (lit "1h") None)))
    by (vm_compute; right; left; reflexivity).
  split; [exact H|].
  apply (fetch_window_bounds example_world (lit "2h") (lit "1h") None _ _ _ H).
Defined.

(** X12. When no fetched message qualifies (each is from a bot or has only
    whitespace), the run is the acknowledgement, the fetch and the
    no-messages reply: the model is not called. *)
Theorem no_qualifying_messages_reply (w : World) (start end_ : str)
  (focus : option str) (start_delta end_delta : timedelta)
  (fetched : list Message) :
  parse_time_ago start = Return start_delta ->
  parse_time_ago end_ = Return end_delta ->
  total_seconds end_delta < total_seconds start_delta
    <= config.MAX_TIME_RANGE_DAYS * 86400 ->
  history w config.MAX_MESSAGES
    (now w - total_microseconds start_delta)
    (now w - total_microseconds end_delta) = Return fetched ->
  (forall m, In m fetched -> author_bot m = true \/ strip (content m) = []) ->
  tldr_command w start end_ focus
  = ([Defer;
      FetchHistory config.MAX_MESSAGES
        (now w - total_microseconds start_delta)
        (now w - total_microseconds end_delta);
      SendContent no_messages_message],
     Return tt).
Proof.
  intros Hs He Hr Hh Hq.
  rewrite (tldr_command_accepted w start end_ focus _ _ Hs He Hr).
  unfold summarize. rewrite Hh. run_step.
  now rewrite (none_qualifies fetched Hq).
Qed.

Lemma no_qualifying_messages_reply_witness :
  (parse_time_ago (lit "2h") = Return (mk_timedelta 0 7200 0)
   /\ parse_time_ago (lit "1h") = Return (mk_timedelta 0 3600 0)
   /\ filter qualifies unqualified_history = [])
  /\ tldr_command (world_with (Return unqualified_history) (Return []))
       (lit "2h") (lit "1h") None
     = ([Defer; FetchHistory 10000 0 3600000000; SendContent no_messages_message],
        Return tt).
Proof.
  split; [repeat split|].
  apply (no_qualifying_messages_reply
           (world_with (Return unqualified_history) (Return []))
           (lit "2h") (lit "1h") None
           (mk_timedelta 0 7200 0) (mk_timedelta 0 3600 0) unqualified_history);
    try reflexivity.
  - vm_compute. split; [reflexivity|discriminate].
  - intros m [<-|[<-|[]]]; [left|right]; reflexivity.
Defined.

(** X13. When the gateway refuses or fails the fetch, the model is not
    called and the run is the acknowledgement, the fetch and then: for
    [Forbidden] the permission message of the context (guild or direct
    message), not logged; for any other [Exception] the unexpected-error
    message with the exception's text, logged; for a raise that is no
    [Exception] (a [BaseExceptionOnly], as [asyncio.CancelledError]) nothing:
    no clause catches it, and the run ends with it, without a reply. *)
Theorem gateway_failure_reply (w : World) (start end_ : str)
  (focus : option str) (start_delta end_delta : timedelta) (e : exn) :
  parse_time_ago start = Return start_delta ->
  parse_time_ago end_ = Return end_delta ->
  total_seconds end_delta < total_seconds start_delta
    <= config.MAX_TIME_RANGE_DAYS * 86400 ->
  history w config.MAX_MESSAGES
    (now w - total_microseconds start_delta)
    (now w - total_microseconds end_delta) = Raise e ->
  tldr_command w start end_ focus
  = (Defer
     :: FetchHistory config.MAX_MESSAGES
          (now w - total_microseconds start_delta)
          (now w - total_microseconds end_delta)
     :: match e with
        | Forbidden =>
            [SendContent (if in_guild w then forbidden_guild_message
                          else forbidden_dm_message)]
        | BaseExceptionOnly _ => []
        | _ =>
            [LogException (lit "Error generating summary: " ++ exn_str w e);
             SendContent (unexpected_message (exn_str w e))]
        end,
     match e with
     | BaseExceptionOnly _ => Raise e
     | _ => Return tt
     end).
Proof.
  intros Hs He Hr Hh.
  rewrite (tldr_command_accepted w start end_ focus _ _ Hs He Hr).
  unfold summarize, on_exception. rewrite Hh. run_step.
  destruct e; reflexivity.
Qed.

Lemma gateway_failure_reply_witness :
  (parse_time_ago (lit "2h") = Return (mk_timedelta 0 7200 0)
   /\ parse_time_ago (lit "1h") = Return (mk_timedelta 0 3600 0))
  /\ tldr_command (world_with (Raise Forbidden) (Return []))
       (lit "2h") (lit "1h") None
     = ([Defer; FetchHistory 10000 0 3600000000; SendContent forbidden_dm_message],
        Return tt)
  /\ tldr_command (world_with (Raise (BaseExceptionOnly (lit "CancelledError")))
                     (Return []))
       (lit "2h") (lit "1h") None
     = ([Defer; FetchHistory 10000 0 3600000000],
        Raise (BaseExceptionOnly (lit "CancelledError"))).
Proof.
  split; [split; reflexivity|]. split.
  - apply (gateway_failure_reply (world_with (Raise Forbidden) (Return []))
             (lit "2h") (lit "1h") None
             (mk_timedelta 0 7200 0) (mk_timedelta 0 3600 0) Forbidden);
      try reflexivity.
    vm_compute. split; [reflexivity|discriminate].
  - apply (gateway_failure_reply
             (world_with (Raise (BaseExceptionOnly (lit "CancelledError"))) (Return []))
             (lit "2h") (lit "1h") None
             (mk_timedelta 0 7200 0) (mk_timedelta 0 3600 0)
             (BaseExceptionOnly (lit "CancelledError")));
      try reflexivity.
    vm_compute. split; [reflexivity|discriminate].
Defined.

(** The handler after a fetch that left messages to summarise, with a
    channel name that can be read. *)
Lemma tldr_command_generates (w : World) (start end_ : str) (focus : option str)
  (start_delta end_delta : timedelta) (fetched : list Message) (name : str) :
  parse_time_ago start = Return start_delta ->
  parse_time_ago end_ = Return end_delta ->
  total_seconds end_delta < total_seconds start_delta
    <= config.MAX_TIME_RANGE_DAYS * 86400 ->
  history w config.MAX_MESSAGES
    (now w - total_microseconds start_delta)
    (now w - total_microseconds end_delta) = Return fetched ->
  filter qualifies fetched <> [] ->
  channel_name w = Return name ->
  tldr_command w start end_ focus
  = bind (emit Defer)
      (fun _ =>
         try_except
           (bind (emit (FetchHistory config.MAX_MESSAGES
                          (now w - total_microseconds start_delta)
                          (now w - total_microseconds end_delta)))
              (fun _ =>
                 bind (emit (LogInfo
                         (lit "Generating summary for "
                          ++ str_of_int (Z.of_nat (length (filter qualifies fetched)))
                          ++ lit " messages in #" ++ name
                          ++ lit " (requested by " ++ user_str w ++ lit ")")))
                   (fun _ =>
                      bind (emit (Generate (prompt_of w focus fetched)))
                        (fun _ =>
                           bind (lift (generate w (prompt_of w focus fetched)))
                             (fun text =>
                                deliver w (summarized fetched) text start end_ focus)))))
           (on_exception w)).
Proof.
  intros Hs He Hr Hh Hq Hn.
  rewrite (tldr_command_accepted w start end_ focus _ _ Hs He Hr).
  unfold summarize, prompt_of, summarized. rewrite Hh, Hn.
  cbn [bind lift emit ret app].
  destruct (filter qualifies fetched) as [|m kept] eqn:K; [congruence|].
  cbv zeta. rewrite sort_by_created_at_length.
  cbn [bind lift emit ret app].
  destruct (generate w _) as [text|e]; cbn [bind lift emit ret app try_except].
  - now destruct (deliver w _ text start end_ focus) as [t [|e]].
  - reflexivity.
Qed.

(** X14. The full run: with messages to summarise and a model that answers
    the same non-empty text to any prompt, the run is the acknowledgement,
    one fetch, one call of the model, and one reply made of the chunks of the
    answer; the count in the footer is the number of qualifying messages,
    bots and blank messages left out. *)
Theorem summary_reply (w : World) (start end_ : str) (focus : option str)
  (start_delta end_delta : timedelta) (fetched : list Message)
  (name text : str) :
  parse_time_ago start = Return start_delta ->
  parse_time_ago end_ = Return end_delta ->
  total_seconds end_delta < total_seconds start_delta
    <= config.MAX_TIME_RANGE_DAYS * 86400 ->
  history w config.MAX_MESSAGES
    (now w - total_microseconds start_delta)
    (now w - total_microseconds end_delta) = Return fetched ->
  filter qualifies fetched <> [] ->
  channel_name w = Return name ->
  (forall prompt, generate w prompt = Return text) ->
  text <> [] ->
  exists chunks prompt log_generating log_sent,
    split_text_into_chunks text EMBED_DESC_LIMIT = Some chunks
    /\ tldr_command w start end_ focus
       = ([Defer;
           FetchHistory config.MAX_MESSAGES
             (now w - total_microseconds start_delta)
             (now w - total_microseconds end_delta);
           LogInfo log_generating;
           Generate prompt;
           SendEmbeds
             (make_embeds chunks
                (footer_text (Z.of_nat (length (filter qualifies fetched)))
                   start end_ focus));
           LogInfo log_sent],
          Return tt).
Proof.
  intros Hs He Hr Hh Hq Hn Hg Ht.
  destruct (split_text_into_chunks_total text EMBED_DESC_LIMIT ltac:(reflexivity))
    as [chunks E].
  exists chunks. do 3 eexists. split; [exact E|].
  rewrite (tldr_command_generates w start end_ focus _ _ fetched name
             Hs He Hr Hh Hq Hn).
  rewrite Hg. destruct text as [|c t]; [congruence|].
  cbn [bind lift emit ret app].
  unfold deliver, send_summary, summarized.
  rewrite E, Hn, sort_by_created_at_length. reflexivity.
Qed.

Lemma summary_reply_witness :
  (parse_time_ago (lit "2h") = Return (mk_timedelta 0 7200 0)
   /\ parse_time_ago (lit "1h") = Return (mk_timedelta 0 3600 0)
   /\ length (filter qualifies example_history) = 3%nat)
  /\ exists chunks prompt log_generating log_sent,
       split_text_into_chunks (lit "- build fixed" ++ [NEWLINE] ++ lit "- ship on friday")
         EMBED_DESC_LIMIT = Some chunks
       /\ tldr_command example_world (lit "2h") (lit "1h") None
          = ([Defer;
              FetchHistory config.MAX_MESSAGES
                (now example_world - total_microseconds (mk_timedelta 0 7200 0))
                (now example_world - total_microseconds (mk_timedelta 0 3600 0));
              LogInfo log_generating;
              Generate prompt;
              SendEmbeds
                (make_embeds chunks
                   (footer_text (Z.of_nat (length (filter qualifies example_history)))
                      (lit "2h") (lit "1h") None));
              LogInfo log_sent],
             Return tt).
Proof.
  split; [repeat split|].
  apply (summary_reply example_world (lit "2h") (lit "1h") None
           (mk_timedelta 0 7200 0) (mk_timedelta 0 3600 0) example_history
           (lit "general")
           (lit "- build fixed" ++ [NEWLINE] ++ lit "- ship on friday"));
    try reflexivity; try discriminate.
  vm_compute. split; [reflexivity|discriminate].
Defined.

(** X15. When the model answers any prompt with the empty text, or fails on
    it, no block of summary is sent, and the run is the acknowledgement, the
    fetch, the log line, the call of the model and then: for the empty text
    the empty-summary message; for [Forbidden] the permission message of the
    context; for any other [Exception] the unexpected-error message, logged;
    for a raise that is no [Exception] (a [BaseExceptionOnly], as
    [asyncio.CancelledError]) nothing: the run ends with it, without a
    reply. *)
Theorem model_failure_reply (w : World) (start end_ : str) (focus : option str)
  (start_delta end_delta : timedelta) (fetched : list Message)
  (name : str) (answer : result str) :
  parse_time_ago start = Return start_delta ->
  parse_time_ago end_ = Return end_delta ->
  total_seconds end_delta < total_seconds start_delta
    <= config.MAX_TIME_RANGE_DAYS * 86400 ->
  history w config.MAX_MESSAGES
    (now w - total_microseconds start_delta)
    (now w - total_microseconds end_delta) = Return fetched ->
  filter qualifies fetched <> [] ->
  channel_name w = Return name ->
  (forall prompt, generate w prompt = answer) ->
  (forall c t, answer <> Return (c :: t)) ->
  exists prompt log_generating,
    tldr_command w start end_ focus
    = (Defer
       :: FetchHistory config.MAX_MESSAGES
            (now w - total_microseconds start_delta)
            (now w - total_microseconds end_delta)
       :: LogInfo log_generating
       :: Generate prompt
       :: match answer with
          | Return _ => [SendContent empty_summary_message]
          | Raise Forbidden =>
              [SendContent (if in_guild w then forbidden_guild_message
                            else forbidden_dm_message)]
          | Raise (BaseExceptionOnly _) => []
          | Raise e =>
              [LogException (lit "Error generating summary: " ++ exn_str w e);
               SendContent (unexpected_message (exn_str w e))]
          end,
       match answer with
       | Raise (BaseExceptionOnly description) =>
           Raise (BaseExceptionOnly description)
       | _ => Return tt
       end).
Proof.
  intros Hs He Hr Hh Hq Hn Hg Ht. do 2 eexists.
  rewrite (tldr_command_generates w start end_ focus _ _ fetched name
             Hs He Hr Hh Hq Hn).
  rewrite Hg. destruct answer as [[|c t]|e].
  - reflexivity.
  - now contradiction (Ht c t).
  - destruct e; reflexivity.
Qed.

Lemma model_failure_reply_witness :
  (parse_time_ago (lit "2h") = Return (mk_timedelta 0 7200 0)
   /\ parse_time_ago (lit "1h") = Return (mk_timedelta 0 3600 0)
   /\ filter qualifies example_history <> [])
  /\ (exists prompt log_generating,
        tldr_command (world_with (Return example_history) (Return []))
          (lit "2h") (lit "1h") None
        = ([Defer; FetchHistory 10000 0 3600000000; LogInfo log_generating;
            Generate prompt;
            SendContent empty_summary_message],
           Return tt))
  /\ (exists prompt log_generating,
        tldr_command (world_with (Return example_history)
                        (Raise (BaseExceptionOnly (lit "CancelledError"))))
          (lit "2h") (lit "1h") None
        = ([Defer; FetchHistory 10000 0 3600000000; LogInfo log_generating;
            Generate prompt],
           Raise (BaseExceptionOnly (lit "CancelledError")))).
Proof.
  split; [repeat split; discriminate|]. split.
  - apply (model_failure_reply (world_with (Return example_history) (Return []))
             (lit "2h") (lit "1h") None
             (mk_timedelta 0 7200 0) (mk_timedelta 0 3600 0) example_history
             (lit "general") (Return []));
      try reflexivity; try discriminate.
    vm_compute. split; [reflexivity|discriminate].
  - apply (model_failure_reply
             (world_with (Return example_history)
                (Raise (BaseExceptionOnly (lit "CancelledError"))))
             (lit "2h") (lit "1h") None
             (mk_timedelta 0 7200 0) (mk_timedelta 0 3600 0) example_history
             (lit "general") (Raise (BaseExceptionOnly (lit "CancelledError"))));
      try reflexivity; try discriminate.
    vm_compute. split; [reflexivity|discriminate].
Defined.

(** The blocks built from the chunks of a text fit the limits. *)
Lemma make_embeds_fit (text line : str) (chunks : list str) :
  split_text_into_chunks text EMBED_DESC_LIMIT = Some chunks ->
  (1 <= length (make_embeds chunks line) <= 10)%nat
  /\ Forall (fun e => len (description e) <= EMBED_DESC_LIMIT)
       (make_embeds chunks line).
Proof.
  intros E.
  pose proof (chunks_nonempty text EMBED_DESC_LIMIT chunks
                ltac:(unfold EMBED_DESC_LIMIT; lia) E) as Hne.
  pose proof (split_text_into_chunks_within text EMBED_DESC_LIMIT chunks
                ltac:(reflexivity) E) as Hall.
  unfold make_embeds. change (Z.to_nat MAX_EMBEDS_PER_MESSAGE) with 10%nat.
  split.
  - rewrite embeds_from_length, length_firstn.
    destruct chunks; [congruence|simpl length; lia].
  - apply Forall_forall. intros e He.
    assert (Hd : In (description e) (firstn 10 chunks)).
    { rewrite <- (embeds_from_description 0 (Z.of_nat (length chunks)) line).
      now apply in_map. }
    rewrite Forall_forall in Hall. apply Hall.
    rewrite <- (firstn_skipn 10 chunks). apply in_or_app. now left.
Qed.

(** X16. Every reply of summary blocks that a run sends fits the platform's
    limits: between 1 and [MAX_EMBEDS_PER_MESSAGE] blocks, each with a
    description of at most [EMBED_DESC_LIMIT] characters. *)
Theorem sent_blocks_fit (w : World) (start end_ : str) (focus : option str)
  (embeds : list Embed) :
  In (SendEmbeds embeds) (fst (tldr_command w start end_ focus)) ->
  (1 <= length embeds <= 10)%nat
  /\ Forall (fun e => len (description e) <= EMBED_DESC_LIMIT) embeds.
Proof.
  unfold tldr_command, parse_range, summarize, deliver, send_summary,
    on_exception.
  destruct (parse_time_ago start) as [sd|e1]; run_step.
  2: { destruct e1; run_step; simpl; intuition discriminate. }
  destruct (parse_time_ago end_) as [ed|e2]; run_step.
  2: { destruct e2; run_step; simpl; intuition discriminate. }
  change (timedelta_new config.MAX_TIME_RANGE_DAYS 0 0)
    with (Return (mk_timedelta config.MAX_TIME_RANGE_DAYS 0 0)).
  run_step.
  destruct (gtb sd _); run_step; [simpl; intuition discriminate|].
  destruct (geb ed sd); run_step; [simpl; intuition discriminate|].
  destruct (history w _ _ _) as [fetched|e3]; run_step.
  2: { destruct e3; run_step; simpl; intuition discriminate. }
  destruct (filter qualifies fetched) as [|m kept]; run_step;
    [simpl; intuition discriminate|].
  destruct (channel_name w) as [name|e4]; run_step.
  2: { destruct e4; run_step; simpl; intuition discriminate. }
  set (prompt := config.SUMMARY_PROMPT_format _ _).
  destruct (generate w prompt) as [[|c text]|e5]; run_step.
  - simpl; intuition discriminate.
  - destruct (split_text_into_chunks (c :: text) EMBED_DESC_LIMIT) as [chunks|] eqn:E;
      run_step; [|simpl; intuition discriminate].
    intros [H|[H|[H|[H|[H|[H|[]]]]]]]; try discriminate H.
    injection H as <-. now apply (make_embeds_fit (c :: text)).
  - destruct e5; run_step; simpl; intuition discriminate.
Qed.

Lemma sent_blocks_fit_witness :
  exists embeds,
    In (SendEmbeds embeds)
       (fst (tldr_command example_world (lit "2h") (lit "1h") None))
    /\ (1 <= length embeds <= 10)%nat
    /\ Forall (fun e => len (description e) <= EMBED_DESC_LIMIT) embeds.
Proof.
  eexists.
  assert (H : In (SendEmbeds
                    [mk_Embed (lit "- build fixed" ++ [NEWLINE] ++ lit "- ship on friday")
                       (Some TITLE)
                       (Some (footer_text 3 (lit "2h") (lit "1h") None))])
                (fst (tldr_command example_world (lit "2h") (lit "1h") None)))
    by (vm_compute; do 4 right; left; reflexivity).
  split; [exact H|].
  apply (sent_blocks_fit example_world (lit "2h") (lit "1h") None _ H).
Defined.

(** ** Startup *)

(** X17. Loading the configuration binds the two credentials only when both
    variables are set and not empty, and then prints nothing; otherwise the
    process exits with status 1 after printing two lines, the first naming
    the first variable, in the order [DISCORD_BOT_TOKEN], [GEMINI_API_KEY],
    that is unset or empty. *)
Theorem load_credentials_outcome (getenv : str -> option str) :
  let missing key := getenv key = None \/ getenv key = Some [] in
  match Startup.load_credentials getenv with
  | (printed, Startup.Loaded c) =>
      printed = []
      /\ getenv (lit "DISCORD_BOT_TOKEN") = Some (Startup.DISCORD_BOT_TOKEN c)
      /\ getenv (lit "GEMINI_API_KEY") = Some (Startup.GEMINI_API_KEY c)
      /\ Startup.DISCORD_BOT_TOKEN c <> []
      /\ Startup.GEMINI_API_KEY c <> []
  | (printed, Startup.Exited status) =>
      status = 1
      /\ exists key,
           printed = [Startup.missing_variable_message key;
                      Startup.check_env_message]
           /\ missing key
           /\ (key = lit "DISCORD_BOT_TOKEN"
               \/ (key = lit "GEMINI_API_KEY"
                   /\ ~ missing (lit "DISCORD_BOT_TOKEN")))
  end.
Proof.
  intros missing. unfold missing, Startup.load_credentials, Startup.get_required_env.
  destruct (getenv (lit "DISCORD_BOT_TOKEN")) as [[|c t]|] eqn:T.
  - split; [reflexivity|]. exists (lit "DISCORD_BOT_TOKEN").
    split; [reflexivity|]. split; [right; exact T|left; reflexivity].
  - destruct (getenv (lit "GEMINI_API_KEY")) as [[|c' t']|] eqn:G.
    + split; [reflexivity|]. exists (lit "GEMINI_API_KEY").
      split; [reflexivity|]. split; [right; exact G|].
      right. split; [reflexivity|]. intros [|]; discriminate.
    + simpl. repeat split; discriminate.
    + split; [reflexivity|]. exists (lit "GEMINI_API_KEY").
      split; [reflexivity|]. split; [left; exact G|].
      right. split; [reflexivity|]. intros [|]; discriminate.
  - split; [reflexivity|]. exists (lit "DISCORD_BOT_TOKEN").
    split; [reflexivity|]. split; [left; exact T|left; reflexivity].
Qed.
